(** * SwupdateManager: the download/engine handoff and the install,
      reboot, finalize cycle of
      src/libaktualizr/package_manager/swupdatemanager.cc *)

From Stdlib Require Import ZArith List String Bool Lia.
From Stdlib Require Import Strings.Byte Strings.Ascii.
Import ListNotations.
Local Open Scope string_scope.
Local Open Scope list_scope.
Local Open Scope Z_scope.

Set Implicit Arguments.

(** ** Machine integers *)

(** [size_t], [uintmax_t] and [uint64_t] values: 64-bit, unsigned. *)
Definition wrap64 (z : Z) : Z := z mod 2 ^ 64.

(** [static_cast<int>] of an unsigned value: 32-bit two's complement. *)
Definition static_cast_int (z : Z) : Z := (z + 2 ^ 31) mod 2 ^ 32 - 2 ^ 31.

Definition INT_MAX : Z := 2 ^ 31 - 1.

Definition EXIT_SUCCESS : Z := 0.
Definition EXIT_FAILURE : Z := 1.

(** ** Data of the collaborators, as far as this file reads it *)

(** [Hash::Type]: the two algorithms [DownloadMetaStruct::hasher] knows and
    the [default:] branch of its switch. *)
Inductive HashType : Type :=
| kSha256
| kSha512
| kUnknownAlgorithm.

Module Uptane.

(** [Uptane::Target], by the accessors this file calls:
    [filename()], [length()] (a [uint64_t]), [uri()],
    [hashes()[0].type()] and [sha256Hash()]. *)
Record Target : Type := {
  filename : string;
  length : Z;
  uri : string;
  hashes_0_type : HashType;
  sha256Hash : string
}.

End Uptane.

Module data.

(** [data::ResultCode::Numeric], the codes this file produces. *)
Inductive ResultCode : Type :=
| kOk
| kInstallFailed
| kNeedCompletion.

Record InstallationResult : Type := {
  result_code : ResultCode;
  description : string
}.

End data.

(** [RECOVERY_STATUS] of the engine's [network_ipc.h]: [endupdate] only
    tells [SUCCESS] and [FAILURE] from the rest. *)
Inductive RECOVERY_STATUS : Type :=
| SUCCESS
| FAILURE
| OTHER_STATUS.

(** [api::FlowControlToken], as a caller of the package manager holds it. *)
Inductive FlowControlToken : Type :=
| TokenRunning
| TokenPaused
| TokenAborted.

(** Modelled from the spec: the bootloader collaborator
    (bootloader/bootloader.h is not among the sources).  The spec gives it
    [reboot_detected() -> bool] and [reboot_flag_clear()], which
    "encapsulate all persisted reboot-pending state", treated as "an opaque
    durable boolean plus a trigger": a state type, the two operations
    [finalizeInstall] calls, the reboot-pending marker that can be read off
    the state, and the one law that clearing the flag clears the marker. *)
Class Bootloader (B : Type) : Type := {
  rebootDetected : B -> bool;
  rebootFlagClear : B -> B;
  reboot_pending : B -> bool;
  rebootFlagClear_pending : forall b, reboot_pending (rebootFlagClear b) = false
}.

(** A bootloader that keeps the marker and whether the machine went
    through a reboot since the marker was set. *)
Record FlagBootloader : Type := {
  need_reboot : bool;
  rebooted : bool
}.

#[export] Instance FlagBootloader_ops : Bootloader FlagBootloader := {
  rebootDetected b := need_reboot b && rebooted b;
  rebootFlagClear b := {| need_reboot := false; rebooted := rebooted b |};
  reboot_pending b := need_reboot b;
  rebootFlagClear_pending := fun _ => eq_refl
}.

(** ** The install state machine *)

(** Lines 120-123: unimplemented in the source, the root hash as a
    constant. *)
Definition getCurrentHash : string :=
  "c8cfb0988662ce4fb60beff47b741705146548a8e62801fbb0cbdeaf198fa47e".

(** Lines 136-142, on the return code of [swupdate_install]. *)
Definition install_result (install_res : Z) : data.InstallationResult :=
  if 0 <? install_res
  then {| data.result_code := data.kInstallFailed;
          data.description := "swupdate_install failed" |}
  else {| data.result_code := data.kNeedCompletion;
          data.description := "Application successful, need reboot" |}.

(** Lines 149-169.  The bootloader state is threaded through: the result
    and the bootloader after the call. *)
Definition finalizeInstall {B : Type} `{Bootloader B}
    (target : Uptane.Target) (bootloader_ : B)
  : data.InstallationResult * B :=
  if negb (rebootDetected bootloader_)
  then ({| data.result_code := data.kNeedCompletion;
           data.description :=
             "Reboot is required for the pending update application" |},
        bootloader_)
  else
    let current_hash := getCurrentHash in
    let install_result :=
      {| data.result_code := data.kOk;
         data.description := "Successfully booted on new version" |} in
    let install_result :=
      if negb (String.eqb current_hash (Uptane.sha256Hash target))
      then {| data.result_code := data.kInstallFailed;
              data.description := "Wrong version booted" |}
      else install_result in
    (install_result, rebootFlagClear bootloader_).

(** ** The download context and the shared statics *)

(** [DownloadMetaStruct], lines 48-78.  A [MultiPartHasher] is kept as the
    bytes fed to it so far; the progress callback, the file handle and the
    report time are never read in this file. *)
Record DownloadMetaStruct : Type := {
  downloaded_length : Z;
  hash_type : HashType;
  target : Uptane.Target;
  token : option FlowControlToken;
  sha256_hasher : list byte;
  sha512_hasher : list byte
}.

(** The constructor, lines 50-55. *)
Definition make_DownloadMetaStruct (target_in : Uptane.Target)
    (token_in : option FlowControlToken) : DownloadMetaStruct :=
  {| downloaded_length := 0;
     hash_type := Uptane.hashes_0_type target_in;
     target := target_in;
     token := token_in;
     sha256_hasher := [];
     sha512_hasher := [] |}.

Definition set_downloaded_length (n : Z) (d : DownloadMetaStruct)
  : DownloadMetaStruct :=
  {| downloaded_length := n;
     hash_type := hash_type d;
     target := target d;
     token := token d;
     sha256_hasher := sha256_hasher d;
     sha512_hasher := sha512_hasher d |}.

(** [hasher().update(contents, n)], lines 60-69 and 226: [None] is the
    [std::runtime_error] of the [default:] branch. *)
Definition hasher_update (bytes : list byte) (d : DownloadMetaStruct)
  : option DownloadMetaStruct :=
  match hash_type d with
  | kSha256 =>
      Some {| downloaded_length := downloaded_length d;
              hash_type := hash_type d;
              target := target d;
              token := token d;
              sha256_hasher := sha256_hasher d ++ bytes;
              sha512_hasher := sha512_hasher d |}
  | kSha512 =>
      Some {| downloaded_length := downloaded_length d;
              hash_type := hash_type d;
              target := target d;
              token := token d;
              sha256_hasher := sha256_hasher d;
              sha512_hasher := sha512_hasher d ++ bytes |}
  | kUnknownAlgorithm => None
  end.

(** The bytes the selected hasher has been fed. *)
Definition hasher_fed (d : DownloadMetaStruct) : list byte :=
  match hash_type d with
  | kSha256 => sha256_hasher d
  | kSha512 => sha512_hasher d
  | kUnknownAlgorithm => []
  end.

(** The statics of lines 84-89 that producer and consumer share, and the
    context [ds] points to. *)
Record Shared : Type := {
  data_buffer : list byte;
  ds : DownloadMetaStruct;
  data_ready : bool;
  data_read : bool;
  unrecoverable_error : bool
}.

Definition store_unrecoverable_error (m : Shared) : Shared :=
  {| data_buffer := data_buffer m;
     ds := ds m;
     data_ready := data_ready m;
     data_read := data_read m;
     unrecoverable_error := true |}.

Definition set_data_buffer (b : list byte) (m : Shared) : Shared :=
  {| data_buffer := b;
     ds := ds m;
     data_ready := data_ready m;
     data_read := data_read m;
     unrecoverable_error := unrecoverable_error m |}.

Definition set_ds (d : DownloadMetaStruct) (m : Shared) : Shared :=
  {| data_buffer := data_buffer m;
     ds := d;
     data_ready := data_ready m;
     data_read := data_read m;
     unrecoverable_error := unrecoverable_error m |}.

(** [data_ready.store(r); data_read.store(d)]. *)
Definition store_flags (r d : bool) (m : Shared) : Shared :=
  {| data_buffer := data_buffer m;
     ds := ds m;
     data_ready := r;
     data_read := d;
     unrecoverable_error := unrecoverable_error m |}.

(** How a stretch of code between two blocking points ends: it goes on
    with a value, it calls [exit], or the predicate of its
    [buffer_cv.wait] is false and the thread sleeps. *)
Inductive Outcome (A : Type) : Type :=
| Returns (a : A) (m : Shared)
| Exits (code : Z) (m : Shared)
| Waits.

Arguments Returns {A} a m.
Arguments Exits {A} code m.
Arguments Waits {A}.

(** [MultiPartSHA256Hasher] and [MultiPartSHA512Hasher] of crypto/crypto.h,
    which is not among the sources: what [getHash().HashString()] answers
    once the given bytes went through [update]. *)
Class Hashers : Type := {
  sha256_HashString : list byte -> string;
  sha512_HashString : list byte -> string
}.

Section HandoffModel.

Context {hashers : Hashers}.

(** [hasher().getHash().HashString()], line 230. *)
Definition hasher_HashString (d : DownloadMetaStruct) : option string :=
  match hash_type d with
  | kSha256 => Some (sha256_HashString (sha256_hasher d))
  | kSha512 => Some (sha512_HashString (sha512_hasher d))
  | kUnknownAlgorithm => None
  end.

(** [size * nmemb], the number of bytes at [contents]. *)
Definition downloaded_of (contents : list byte) : Z :=
  wrap64 (Z.of_nat (List.length contents)).

(** [DownloadHandler], lines 197-211: before the lock is taken. *)
Definition DownloadHandler_check (contents : list byte) (m : Shared)
  : Outcome unit :=
  if unrecoverable_error m then Exits (-1) m
  else
    let dst := ds m in
    let downloaded := downloaded_of contents in
    let expected := Uptane.length (target dst) in
    if expected <? wrap64 (downloaded_length dst + downloaded)
    then Exits (-1) (store_unrecoverable_error m)
    else Returns tt m.

(** [DownloadHandler], lines 214-247: from the first wait to the
    notification of [readimage], under [buffer_mutex]. *)
Definition DownloadHandler_push (contents : list byte) (m : Shared)
  : Outcome unit :=
  if negb (data_ready m) || unrecoverable_error m then
    if unrecoverable_error m then Exits (-1) m
    else
      let downloaded := downloaded_of contents in
      let expected := Uptane.length (target (ds m)) in
      let bytes := firstn (Z.to_nat downloaded) contents in
      let m := set_data_buffer bytes m in
      match hasher_update bytes (ds m) with
      | None => Exits (-1) (store_unrecoverable_error m)
      | Some dst =>
          let dst :=
            set_downloaded_length
              (wrap64 (downloaded_length dst + downloaded)) dst in
          let m := set_ds dst m in
          let notify_readimage := Returns tt (store_flags true false m) in
          if downloaded_length dst =? expected then
            match hasher_HashString dst with
            | None => Exits (-1) (store_unrecoverable_error m)
            | Some final_hash =>
                let expected_hash := Uptane.sha256Hash (target dst) in
                if negb (String.eqb final_hash expected_hash)
                then Exits (-1) (store_unrecoverable_error m)
                else notify_readimage
            end
          else notify_readimage
      end
  else Waits.

(** [DownloadHandler], lines 250-263: the wait for [readimage] and the
    return to the transport. *)
Definition DownloadHandler_wait (contents : list byte) (m : Shared)
  : Outcome Z :=
  if data_read m || unrecoverable_error m then
    if unrecoverable_error m then Exits (-1) m
    else Returns (downloaded_of contents) m
  else Waits.

(** What [*pbuf] is worth once [readimage] has returned.  Line 280 stores
    in it the address of the storage of the local [data_buffer_copy]; the
    vector is destroyed when the function returns (line 289), so the
    engine is left with the address of released storage, and nothing says
    what a read through it finds. *)
Inductive Pointer : Type := Dangling.

(** What a call of [readimage] that takes a frame leaves: the local
    [data_buffer_copy] of lines 277-278, which lives as long as the call
    and no longer, and the two out-parameters as the engine finds them
    after the return. *)
Record Taken : Type := {
  data_buffer_copy : list byte;
  pbuf : Pointer;
  size : Z
}.

(** [readimage], lines 266-289: the value returned and, when a frame is
    taken, the copy made of it during the call with [*pbuf] and [*size].
    The bytes of the copy do not reach the engine: [*pbuf] dangles. *)
Definition readimage (m : Shared) : Outcome (Z * option Taken) :=
  if data_ready m || unrecoverable_error m then
    if unrecoverable_error m then Returns (-1, None) m
    else
      let data_buffer_copy := data_buffer m in
      let size := static_cast_int (Z.of_nat (List.length (data_buffer m))) in
      Returns (size, Some {| data_buffer_copy := data_buffer_copy;
                             pbuf := Dangling;
                             size := size |})
              (store_flags false true m)
  else Waits.

(** [endupdate], lines 300-315: the value returned; the signal on
    [cv_end] is part of [engine_end_step]. *)
Definition endupdate (status : RECOVERY_STATUS) : Z :=
  match status with
  | SUCCESS => EXIT_SUCCESS
  | _ => EXIT_FAILURE
  end.

(** ** One attempt of [swupdate_install] and its three threads *)

(** What the collaborators do in one attempt: the target handed to
    [install], the result of [swupdate_async_start], the contents
    [http_->download] passes to its callback, in order, and the status of
    the response it returns. *)
Record Attempt : Type := {
  attempt_target : Uptane.Target;
  start_rc : Z;
  chunks : list (list byte);
  http_status_code : Z
}.

(** The caller's thread inside [swupdate_install], lines 317-370. *)
Inductive MainPC : Type :=
| MStartEngine                (* line 325 *)
| MSpawnDownload              (* line 338 *)
| MCondWait                   (* lines 354-357, before the wait *)
| MWaiting                    (* asleep in [pthread_cond_wait] *)
| MJoin                       (* line 361 *)
| MReturned (rc : Z).

(** The download thread, lines 338-352, with [DownloadHandler] called
    back from [http_->download]. *)
Inductive DownloadPC : Type :=
| DNotStarted
| DFetch (rest : list (list byte))
| DPush (contents : list byte) (rest : list (list byte))
| DWait (contents : list byte) (rest : list (list byte))
| DFinished.

(** The process during one attempt.  [pulled] is the record of the frames
    taken out of the slot: the copy each call of [readimage] made, in the
    order of the calls.  It is not what the engine reads: the engine is
    handed the length of each frame and a dangling [*pbuf]. *)
Record System : Type := {
  shared : Shared;
  main_pc : MainPC;
  download_pc : DownloadPC;
  engine_started : bool;
  engine_in_readimage : bool;
  engine_result : option RECOVERY_STATUS;
  pulled : list (list byte);
  exited : option Z
}.

(** The state at line 323 of the first attempt of a process: the statics
    have their initialisers (lines 84-89), [ds] is the context of line
    321, built with a null token. *)
Definition enter (a : Attempt) : System :=
  {| shared :=
       {| data_buffer := [];
          ds := make_DownloadMetaStruct (attempt_target a) None;
          data_ready := false;
          data_read := false;
          unrecoverable_error := false |};
     main_pc := MStartEngine;
     download_pc := DNotStarted;
     engine_started := false;
     engine_in_readimage := false;
     engine_result := None;
     pulled := [];
     exited := None |}.


Definition set_shared (m : Shared) (s : System) : System :=
  {| shared := m;
     main_pc := main_pc s;
     download_pc := download_pc s;
     engine_started := engine_started s;
     engine_in_readimage := engine_in_readimage s;
     engine_result := engine_result s;
     pulled := pulled s;
     exited := exited s |}.

Definition set_main_pc (pc : MainPC) (s : System) : System :=
  {| shared := shared s;
     main_pc := pc;
     download_pc := download_pc s;
     engine_started := engine_started s;
     engine_in_readimage := engine_in_readimage s;
     engine_result := engine_result s;
     pulled := pulled s;
     exited := exited s |}.

Definition set_download_pc (pc : DownloadPC) (s : System) : System :=
  {| shared := shared s;
     main_pc := main_pc s;
     download_pc := pc;
     engine_started := engine_started s;
     engine_in_readimage := engine_in_readimage s;
     engine_result := engine_result s;
     pulled := pulled s;
     exited := exited s |}.

(** [exit(code)] called with the statics as in [m]. *)
Definition process_exit (code : Z) (m : Shared) (s : System) : System :=
  {| shared := m;
     main_pc := main_pc s;
     download_pc := download_pc s;
     engine_started := engine_started s;
     engine_in_readimage := engine_in_readimage s;
     engine_result := engine_result s;
     pulled := pulled s;
     exited := Some code |}.

(** The caller's thread.  Waking from [pthread_cond_wait] is not its own
    step: see [engine_end_step] and [EvSpuriousWakeup]. *)
Definition main_step (a : Attempt) (s : System) : System :=
  match main_pc s with
  | MStartEngine =>
      if start_rc a <? 0 then set_main_pc (MReturned EXIT_FAILURE) s
      else
        {| shared := shared s;
           main_pc := MSpawnDownload;
           download_pc := download_pc s;
           engine_started := true;
           engine_in_readimage := engine_in_readimage s;
           engine_result := engine_result s;
           pulled := pulled s;
           exited := exited s |}
  | MSpawnDownload =>
      set_download_pc (DFetch (chunks a)) (set_main_pc MCondWait s)
  | MCondWait => set_main_pc MWaiting s
  | MWaiting => s
  | MJoin =>
      match download_pc s with
      | DFinished =>
          set_main_pc
            (MReturned (if unrecoverable_error (shared s)
                        then EXIT_FAILURE else EXIT_SUCCESS)) s
      | _ => s
      end
  | MReturned _ => s
  end.

(** The download thread: one stretch of [DownloadHandler], or the return
    of [http_->download] and the status check of lines 347-351. *)
Definition download_step (a : Attempt) (s : System) : System :=
  match download_pc s with
  | DNotStarted => s
  | DFetch [] =>
      set_download_pc DFinished
        (if negb (http_status_code a =? 200)
         then set_shared (store_unrecoverable_error (shared s)) s
         else s)
  | DFetch (contents :: rest) =>
      match DownloadHandler_check contents (shared s) with
      | Returns _ m => set_download_pc (DPush contents rest) (set_shared m s)
      | Exits code m => process_exit code m s
      | Waits => s
      end
  | DPush contents rest =>
      match DownloadHandler_push contents (shared s) with
      | Returns _ m => set_download_pc (DWait contents rest) (set_shared m s)
      | Exits code m => process_exit code m s
      | Waits => s
      end
  | DWait contents rest =>
      match DownloadHandler_wait contents (shared s) with
      | Returns _ m => set_download_pc (DFetch rest) (set_shared m s)
      | Exits code m => process_exit code m s
      | Waits => s
      end
  | DFinished => s
  end.

Definition engine_active (s : System) : bool :=
  engine_started s &&
  match engine_result s with Some _ => false | None => true end.

(** The engine's thread calls [readimage], or goes on inside the call it
    sleeps in.  A call that takes a frame adds the copy it made to
    [pulled]; the copy itself is gone when the call returns. *)
Definition engine_read_step (s : System) : System :=
  if engine_active s then
    match readimage (shared s) with
    | Returns (_, frame) m =>
        {| shared := m;
           main_pc := main_pc s;
           download_pc := download_pc s;
           engine_started := engine_started s;
           engine_in_readimage := false;
           engine_result := engine_result s;
           pulled :=
             match frame with
             | Some taken => pulled s ++ [data_buffer_copy taken]
             | None => pulled s
             end;
           exited := exited s |}
    | Exits code m => process_exit code m s
    | Waits =>
        {| shared := shared s;
           main_pc := main_pc s;
           download_pc := download_pc s;
           engine_started := engine_started s;
           engine_in_readimage := true;
           engine_result := engine_result s;
           pulled := pulled s;
           exited := exited s |}
    end
  else s.

(** The engine's thread, outside [readimage], calls [endupdate]: the
    signal on [cv_end] wakes the caller's thread only if it sleeps there
    already. *)
Definition engine_end_step (status : RECOVERY_STATUS) (s : System)
  : System :=
  if engine_active s && negb (engine_in_readimage s) then
    {| shared := shared s;
       main_pc := match main_pc s with MWaiting => MJoin | pc => pc end;
       download_pc := download_pc s;
       engine_started := engine_started s;
       engine_in_readimage := engine_in_readimage s;
       engine_result := Some status;
       pulled := pulled s;
       exited := exited s |}
  else s.

(** What the scheduler and the engine choose next. *)
Inductive Event : Type :=
| EvMain
| EvDownload
| EvEngineRead
| EvEngineEnd (status : RECOVERY_STATUS)
| EvSpuriousWakeup.

Definition step (a : Attempt) (ev : Event) (s : System) : System :=
  match exited s with
  | Some _ => s
  | None =>
      match ev with
      | EvMain => main_step a s
      | EvDownload => download_step a s
      | EvEngineRead => engine_read_step s
      | EvEngineEnd status => engine_end_step status s
      | EvSpuriousWakeup =>
          match main_pc s with
          | MWaiting => set_main_pc MJoin s
          | _ => s
          end
      end
  end.

Definition run (a : Attempt) (schedule : list Event) (s : System) : System :=
  fold_left (fun s ev => step a ev s) schedule s.

(** What [install] (lines 136-142) hands to its caller, once
    [swupdate_install] has returned. *)
Definition install (s : System) : option data.InstallationResult :=
  match main_pc s with
  | MReturned install_res => Some (install_result install_res)
  | _ => None
  end.

(** ** Vocabulary of the statements *)

(** Bytes in a sequence of chunks (or of frames taken out of the slot). *)
Fixpoint total_length (l : list (list byte)) : Z :=
  match l with
  | [] => 0
  | contents :: rest => Z.of_nat (List.length contents) + total_length rest
  end.

(** The chunks the transport has not handed to the callback yet, with
    the one whose push has not happened yet. *)
Definition remaining (a : Attempt) (s : System) : list (list byte) :=
  match download_pc s with
  | DNotStarted => chunks a
  | DFetch rest => rest
  | DPush contents rest => contents :: rest
  | DWait _ rest => rest
  | DFinished => []
  end.

(** The download thread is inside [http_->download]. *)
Definition in_download (pc : DownloadPC) : Prop :=
  match pc with
  | DFetch _ | DPush _ _ | DWait _ _ => True
  | DNotStarted | DFinished => False
  end.

(** The frame in the slot that [readimage] has not taken yet. *)
Definition pending (m : Shared) : Z :=
  if data_ready m then Z.of_nat (List.length (data_buffer m)) else 0.

(** The digest the selected hasher gives for the given bytes. *)
Definition digest_of (t : HashType) (bytes : list byte) : option string :=
  match t with
  | kSha256 => Some (sha256_HashString bytes)
  | kSha512 => Some (sha512_HashString bytes)
  | kUnknownAlgorithm => None
  end.

Definition set_token (tok : option FlowControlToken) (m : Shared) : Shared :=
  set_ds {| downloaded_length := downloaded_length (ds m);
            hash_type := hash_type (ds m);
            target := target (ds m);
            token := tok;
            sha256_hasher := sha256_hasher (ds m);
            sha512_hasher := sha512_hasher (ds m) |} m.

Definition outcome_map {A : Type} (f : Shared -> Shared) (o : Outcome A)
  : Outcome A :=
  match o with
  | Returns x m => Returns x (f m)
  | Exits code m => Exits code (f m)
  | Waits => Waits
  end.

(** The schedule in which every thread runs as soon as it can: the
    caller starts the engine and the download and goes to sleep; each
    chunk is checked, pushed, taken by the engine and acknowledged; the
    transport returns; the engine reports [status]; the caller joins. *)
Definition chunk_round : list Event :=
  [EvDownload; EvDownload; EvEngineRead; EvDownload].

Fixpoint chunk_rounds (l : list (list byte)) : list Event :=
  match l with
  | [] => []
  | _ :: rest => chunk_round ++ chunk_rounds rest
  end.

Definition natural_schedule (a : Attempt) (status : RECOVERY_STATUS)
  : list Event :=
  [EvMain; EvMain; EvMain] ++ chunk_rounds (chunks a)
    ++ [EvDownload; EvEngineEnd status; EvMain].

(** ** Invariants of every execution *)

(** What holds of every state an attempt reaches, whatever the chunks. *)
Record Basic (a : Attempt) (s : System) : Prop := {
  basic_target : target (ds (shared s)) = attempt_target a;
  basic_hash_type :
    hash_type (ds (shared s)) = Uptane.hashes_0_type (attempt_target a);
  basic_token : token (ds (shared s)) = None;
  basic_fault :
    exited s = None -> unrecoverable_error (shared s) = true ->
    download_pc s = DFinished /\ http_status_code a <> 200;
  basic_transport :
    download_pc s = DFinished -> http_status_code a <> 200 ->
    unrecoverable_error (shared s) = true;
  basic_exit :
    forall code, exited s = Some code ->
    code = -1 /\ unrecoverable_error (shared s) = true
    /\ in_download (download_pc s);
  basic_early :
    main_pc s = MStartEngine \/ main_pc s = MSpawnDownload ->
    download_pc s = DNotStarted;
  basic_return :
    forall rc, main_pc s = MReturned rc ->
    (start_rc a < 0 /\ rc = EXIT_FAILURE /\ download_pc s = DNotStarted)
    \/ (download_pc s = DFinished
        /\ rc = if unrecoverable_error (shared s)
                then EXIT_FAILURE else EXIT_SUCCESS);
  basic_engine : engine_started s = true -> 0 <= start_rc a;
  basic_result : engine_result s <> None -> engine_started s = true
}.

(** What holds of every state of an attempt whose transfer fits
    [uintmax_t]. *)
Record Accounted (a : Attempt) (s : System) : Prop := {
  acct_nonneg :
    exited s = None -> 0 <= downloaded_length (ds (shared s));
  acct_length :
    exited s = None ->
    downloaded_length (ds (shared s)) + total_length (remaining a s)
    = total_length (chunks a);
  acct_fed :
    exited s = None ->
    hasher_fed (ds (shared s)) ++ List.concat (remaining a s)
    = List.concat (chunks a);
  acct_push :
    exited s = None ->
    forall contents rest, download_pc s = DPush contents rest ->
    downloaded_length (ds (shared s)) + Z.of_nat (List.length contents)
    <= Uptane.length (attempt_target a);
  acct_pulled :
    exited s = None ->
    total_length (pulled s) + pending (shared s)
    <= downloaded_length (ds (shared s));
  acct_bound :
    total_length (pulled s) + pending (shared s)
    <= Uptane.length (attempt_target a)
}.

(** The download waits for its next chunk, the slot is empty, the
    engine is idle and the caller sleeps in [pthread_cond_wait]. *)
Record Ready (a : Attempt) (s : System) (rest : list (list byte))
  : Prop := {
  ready_basic : Basic a s;
  ready_accounted : Accounted a s;
  ready_exited : exited s = None;
  ready_download : download_pc s = DFetch rest;
  ready_slot : data_ready (shared s) = false;
  ready_engine : engine_started s = true;
  ready_result : engine_result s = None;
  ready_idle : engine_in_readimage s = false;
  ready_main : main_pc s = MWaiting
}.

(** No push has gone through yet. *)
Definition before_first_push (a : Attempt) (pc : DownloadPC) : Prop :=
  match pc with
  | DNotStarted => True
  | DFetch rest => rest = chunks a
  | DPush contents rest => contents :: rest = chunks a
  | DWait _ _ | DFinished => False
  end.

(** Either no push has gone through yet, or the digest was verified if
    the declared length is reached; and the download thread has not
    finished. *)
Record Guarded (a : Attempt) (s : System) : Prop := {
  guard_unfinished : download_pc s <> DFinished;
  guard_verified :
    exited s = None ->
    before_first_push a (download_pc s)
    \/ (downloaded_length (ds (shared s))
        = Uptane.length (attempt_target a) ->
        digest_of (Uptane.hashes_0_type (attempt_target a))
          (hasher_fed (ds (shared s)))
        = Some (Uptane.sha256Hash (attempt_target a)))
}.

End HandoffModel.

(** ** Examples to run the model on *)

(** A stand-in for the two hashers in the examples: the "digest" of a
    sequence of bytes is the string of these bytes. *)
Definition example_HashString (bytes : list byte) : string :=
  string_of_list_byte bytes.

Definition example_hashers : Hashers :=
  {| sha256_HashString := example_HashString;
     sha512_HashString := example_HashString |}.

(** A target of four bytes whose expected digest is that of "abcd". *)
Definition example_target : Uptane.Target :=
  {| Uptane.filename := "image.swu";
     Uptane.length := 4;
     Uptane.uri := "https://example.org/image.swu";
     Uptane.hashes_0_type := kSha256;
     Uptane.sha256Hash := "abcd" |}.

(** A target of no bytes with the same expected digest, which is not the
    digest of no bytes. *)
Definition empty_target : Uptane.Target :=
  {| Uptane.filename := "empty.swu";
     Uptane.length := 0;
     Uptane.uri := "https://example.org/empty.swu";
     Uptane.hashes_0_type := kSha256;
     Uptane.sha256Hash := "abcd" |}.

(** "ab" then "cd", with the given transport status. *)
Definition two_halves (status_code : Z) : Attempt :=
  {| attempt_target := example_target;
     start_rc := 0;
     chunks := [[x61; x62]; [x63; x64]];
     http_status_code := status_code |}.

(** "ab" then "cde": one byte too many. *)
Definition one_byte_too_many : Attempt :=
  {| attempt_target := example_target;
     start_rc := 0;
     chunks := [[x61; x62]; [x63; x64; x65]];
     http_status_code := 200 |}.

(** No chunk at all for the empty target. *)
Definition nothing_delivered : Attempt :=
  {| attempt_target := empty_target;
     start_rc := 0;
     chunks := [];
     http_status_code := 200 |}.

(** The first chunk goes through, the second is handed to the callback. *)
Definition until_second_check : list Event :=
  [EvMain; EvMain; EvMain] ++ chunk_round ++ [EvDownload].

(** The statics at the first push of "ab" to [example_target], with an
    aborted token in the download context. *)
Definition aborted_token_statics : Shared :=
  {| data_buffer := [];
     ds := make_DownloadMetaStruct example_target (Some TokenAborted);
     data_ready := false;
     data_read := false;
     unrecoverable_error := false |}.

Definition example_run : Attempt -> list Event -> System -> System :=
  @run example_hashers.

(** ** The installed packages file *)

(** [Json::Value], as far as [getInstalledPackages] builds it: strings,
    objects with their members, arrays. *)
#[local] Unset Elimination Schemes.
Inductive JsonValue : Type :=
| JsonString (s : string)
| JsonObject (members : list (string * JsonValue))
| JsonArray (items : list JsonValue).
#[local] Set Elimination Schemes.

(** A call that returns a value or throws [std::runtime_error(what)]. *)
Inductive Thrown (A : Type) : Type :=
| Value (a : A)
| Throw (what : string).

Arguments Value {A} a.
Arguments Throw {A} what.

Definition newline : Ascii.ascii := "010"%char.
Definition space : Ascii.ascii := " "%char.

(** [boost::split(result, input, boost::is_any_of(sep))] for a single
    separator, adjacent separators not compressed: one token more than
    there are separators, a single empty token for the empty input. *)
Fixpoint boost_split (sep : Ascii.ascii) (input : string) : list string :=
  match input with
  | EmptyString => [EmptyString]
  | String c rest =>
      if Ascii.eqb c sep then EmptyString :: boost_split sep rest
      else
        match boost_split sep rest with
        | token :: tokens => String c token :: tokens
        | [] => [String c EmptyString]
        end
  end.

(** [std::string::find] for a needle of one character: the first position
    of the character, [None] for [npos]. *)
Fixpoint find (needle : Ascii.ascii) (s : string) : option nat :=
  match s with
  | EmptyString => None
  | String c rest =>
      if Ascii.eqb c needle then Some 0%nat
      else option_map S (find needle rest)
  end.

(** [it->substr(pos + 1)]: from [pos + 1] to the end. *)
Definition substr_from (pos : nat) (s : string) : string :=
  substring pos (String.length s - pos) s.

(** The body of the loop of lines 104-116 for one line that is not empty:
    the package object, or the exception. *)
Definition package_of_line (it : string) : Thrown JsonValue :=
  match find space it with
  | None => Throw "Wrong packages file format"
  | Some pos =>
      Value (JsonObject
               [("name", JsonString (substring 0 pos it));
                ("version", JsonString (substr_from (pos + 1) it))])
  end.

(** The loop of lines 104-116, with [packages] as built so far. *)
Fixpoint getInstalledPackages_loop (package_lines : list string)
    (packages : list JsonValue) : Thrown (list JsonValue) :=
  match package_lines with
  | [] => Value packages
  | it :: rest =>
      match it with
      | EmptyString => getInstalledPackages_loop rest packages
      | String _ _ =>
          match package_of_line it with
          | Throw what => Throw what
          | Value package =>
              getInstalledPackages_loop rest (packages ++ [package])
          end
      end
  end.

(** The entries of the array [getInstalledPackages] returns, for the
    contents of the packages file. *)
Definition package_entries (packages_str : string)
  : Thrown (list JsonValue) :=
  getInstalledPackages_loop (boost_split newline packages_str) [].

(** Lines 98-118, on what [Utils::readFile(config.packages_file)] gave. *)
Definition getInstalledPackages (packages_str : string) : Thrown JsonValue :=
  match package_entries packages_str with
  | Value packages => Value (JsonArray packages)
  | Throw what => Throw what
  end.

(** A packages file written from names and versions: one line per package,
    the name, a space, the version; lines joined by newlines. *)
Definition package_line (p : string * string) : string :=
  fst p ++ String space (snd p).

Definition packages_file (ps : list (string * string)) : string :=
  String.concat (String newline EmptyString) (map package_line ps).

Definition package_json (p : string * string) : JsonValue :=
  JsonObject [("name", JsonString (fst p)); ("version", JsonString (snd p))].

(** ** The messages of [endupdate] *)

(** What [endupdate] (lines 300-315) prints, line by line. *)
Definition endupdate_output (status : RECOVERY_STATUS) : list string :=
  [("SWUpdate "
    ++ match status with
       | FAILURE => "*failed* !"
       | _ => "was successful !"
       end
    ++ String newline EmptyString)%string;
   match status with
   | SUCCESS => String.append "Executing post-update actions."
                  (String newline EmptyString)
   | _ => String.append "Update failed. Performing cleanup."
            (String newline EmptyString)
   end].

(** ** More vocabulary on executions *)

(** The event with the engine reporting [status] instead of what it
    reports. *)
Definition report (status : RECOVERY_STATUS) (ev : Event) : Event :=
  match ev with
  | EvEngineEnd _ => EvEngineEnd status
  | _ => ev
  end.

Definition is_spurious (ev : Event) : bool :=
  match ev with
  | EvSpuriousWakeup => true
  | _ => false
  end.

(** The frame in the slot, if there is one [readimage] has not taken. *)
Definition slot (m : Shared) : list (list byte) :=
  if data_ready m then [data_buffer m] else [].

(** The slot is empty unless the download thread waits for [readimage],
    and then it is empty exactly when the frame was read. *)
Definition slot_in_step (s : System) : Prop :=
  match download_pc s with
  | DWait _ _ => data_ready (shared s) = negb (data_read (shared s))
  | _ => data_ready (shared s) = false
  end.

(** The frames taken, the slot and what is still to push are the
    chunks of the transport, in order. *)
Record Ordered (a : Attempt) (s : System) : Prop := {
  ord_prefix : exists rest, pulled s ++ rest = chunks a;
  ord_frames :
    exited s = None ->
    pulled s ++ slot (shared s) ++ remaining a s = chunks a;
  ord_slot : exited s = None -> slot_in_step s
}.

(** The same state but for the status the engine reported. *)
Definition same_but_status (s1 s2 : System) : Prop :=
  shared s1 = shared s2 /\ main_pc s1 = main_pc s2
  /\ download_pc s1 = download_pc s2
  /\ engine_started s1 = engine_started s2
  /\ engine_in_readimage s1 = engine_in_readimage s2
  /\ pulled s1 = pulled s2 /\ exited s1 = exited s2
  /\ (engine_result s1 = None <-> engine_result s2 = None).

(** The engine has reported and the caller is not asleep in
    [pthread_cond_wait] yet, or sleeps there with the signal gone. *)
Definition missed_signal (s : System) : Prop :=
  engine_result s <> None
  /\ (main_pc s = MSpawnDownload \/ main_pc s = MCondWait
      \/ main_pc s = MWaiting).

(** Nothing has run but the caller's thread, which has not got past the
    start of the engine. *)
Definition never_started (a : Attempt) (s : System) : Prop :=
  shared s = shared (enter a) /\ download_pc s = DNotStarted
  /\ engine_started s = false /\ engine_result s = None
  /\ pulled s = [] /\ exited s = None
  /\ (main_pc s = MStartEngine \/ main_pc s = MReturned EXIT_FAILURE).

(** ** More examples *)


(** Two packages; the version of the first holds a space. *)
Definition example_packages : list (string * string) :=
  [("aktualizr", "1.0 beta"); ("swupdate", "2023.12")].

(** A packages file whose second line holds no space. *)
Definition broken_packages_file : string :=
  String.append "aktualizr 1.0" (String newline "swupdate").

(** The transfer of [two_halves] up to the return of [http_->download],
    and the engine calling [readimage] once more. *)
Definition until_drained : list Event :=
  [EvMain; EvMain; EvMain] ++ chunk_round ++ chunk_round
    ++ [EvDownload; EvEngineRead].

(** * Proofs *)

Section HandoffProofs.

Context {hashers : Hashers}.

(** ** The stretches of the callbacks, case by case *)

Lemma DownloadHandler_check_shape (contents : list byte) (m : Shared) :
  match DownloadHandler_check contents m with
  | Returns _ m' =>
      m' = m /\ unrecoverable_error m = false
      /\ wrap64 (downloaded_length (ds m) + downloaded_of contents)
         <= Uptane.length (target (ds m))
  | Exits code m' =>
      code = -1 /\ unrecoverable_error m' = true /\ ds m' = ds m
      /\ data_buffer m' = data_buffer m /\ data_ready m' = data_ready m
  | Waits => False
  end.
Proof.
  unfold DownloadHandler_check.
  destruct (unrecoverable_error m) eqn:Hue; [now cbn|].
  destruct (Z.ltb_spec (Uptane.length (target (ds m)))
              (wrap64 (downloaded_length (ds m) + downloaded_of contents)));
    cbn; repeat split; auto; lia.
Qed.

Lemma hasher_update_shape (bytes : list byte) (d : DownloadMetaStruct) :
  match hasher_update bytes d with
  | Some d' =>
      hash_type d <> kUnknownAlgorithm
      /\ downloaded_length d' = downloaded_length d
      /\ hash_type d' = hash_type d /\ target d' = target d
      /\ token d' = token d /\ hasher_fed d' = hasher_fed d ++ bytes
  | None => hash_type d = kUnknownAlgorithm
  end.
Proof.
  unfold hasher_update, hasher_fed.
  destruct (hash_type d) eqn:Ht; cbn; rewrite ?Ht; repeat split;
    auto; discriminate.
Qed.

Lemma hasher_HashString_digest (d : DownloadMetaStruct) :
  hasher_HashString d = digest_of (hash_type d) (hasher_fed d).
Proof.
  unfold hasher_HashString, digest_of, hasher_fed.
  now destruct (hash_type d).
Qed.

Lemma hasher_fed_set_downloaded_length (n : Z) (d : DownloadMetaStruct) :
  hasher_fed (set_downloaded_length n d) = hasher_fed d.
Proof. reflexivity. Qed.

Lemma DownloadHandler_push_shape (contents : list byte) (m : Shared) :
  let bytes := firstn (Z.to_nat (downloaded_of contents)) contents in
  match DownloadHandler_push contents m with
  | Returns _ m' =>
      unrecoverable_error m = false /\ data_ready m = false
      /\ unrecoverable_error m' = false /\ data_ready m' = true
      /\ data_read m' = false /\ data_buffer m' = bytes
      /\ target (ds m') = target (ds m)
      /\ token (ds m') = token (ds m)
      /\ hash_type (ds m') = hash_type (ds m)
      /\ downloaded_length (ds m')
         = wrap64 (downloaded_length (ds m) + downloaded_of contents)
      /\ hasher_fed (ds m') = hasher_fed (ds m) ++ bytes
      /\ hash_type (ds m) <> kUnknownAlgorithm
      /\ (downloaded_length (ds m') = Uptane.length (target (ds m)) ->
          digest_of (hash_type (ds m)) (hasher_fed (ds m'))
          = Some (Uptane.sha256Hash (target (ds m))))
  | Exits code m' =>
      code = -1 /\ unrecoverable_error m' = true
      /\ data_ready m' = data_ready m
      /\ target (ds m') = target (ds m)
      /\ token (ds m') = token (ds m)
      /\ hash_type (ds m') = hash_type (ds m)
      /\ pending m' <= pending m
  | Waits => data_ready m = true /\ unrecoverable_error m = false
  end.
Proof.
  intros bytes. unfold DownloadHandler_push. fold bytes.
  assert (Hpend : forall m0, data_ready m0 = false -> pending m0 <= pending m)
    by (intros m0 H0; unfold pending; rewrite H0;
        destruct (data_ready m); lia).
  destruct (data_ready m) eqn:Hr, (unrecoverable_error m) eqn:Hue; cbn;
    try (repeat split; auto; try lia; fail).
  pose proof (hasher_update_shape bytes (ds m)) as Hu.
  destruct (hasher_update bytes (ds m)) as [d'|]; cbn;
    [|repeat split; auto].
  destruct Hu as (Hk & Hdl & Hty & Htg & Htk & Hfed).
  rewrite hasher_HashString_digest. cbn.
  rewrite Hty, Htg, Hdl, hasher_fed_set_downloaded_length.
  destruct (Z.eqb_spec
              (wrap64 (downloaded_length (ds m) + downloaded_of contents))
              (Uptane.length (target (ds m)))) as [He|He].
  - destruct (digest_of (hash_type (ds m)) (hasher_fed d')) as [h|] eqn:Hd;
      [|cbn; repeat split; auto].
    destruct (String.eqb_spec h (Uptane.sha256Hash (target (ds m))))
      as [Hh|Hh]; cbn; repeat split; auto.
    intros _. now rewrite hasher_fed_set_downloaded_length, Hd, Hh.
  - cbn. repeat split; auto. intros He'. contradiction.
Qed.

Lemma DownloadHandler_wait_shape (contents : list byte) (m : Shared) :
  match DownloadHandler_wait contents m with
  | Returns n m' =>
      n = downloaded_of contents /\ m' = m
      /\ unrecoverable_error m = false /\ data_read m = true
  | Exits code m' => code = -1 /\ m' = m /\ unrecoverable_error m = true
  | Waits => data_read m = false /\ unrecoverable_error m = false
  end.
Proof.
  unfold DownloadHandler_wait.
  destruct (data_read m), (unrecoverable_error m); cbn; auto.
Qed.

Lemma readimage_shape (m : Shared) :
  match readimage m with
  | Returns (r, frame) m' =>
      (unrecoverable_error m = true /\ r = -1 /\ frame = None /\ m' = m)
      \/ (unrecoverable_error m = false /\ data_ready m = true
          /\ r = static_cast_int (Z.of_nat (List.length (data_buffer m)))
          /\ frame = Some {| data_buffer_copy := data_buffer m;
                             pbuf := Dangling;
                             size := r |}
          /\ m' = store_flags false true m)
  | Exits _ _ => False
  | Waits => data_ready m = false /\ unrecoverable_error m = false
  end.
Proof.
  unfold readimage.
  destruct (data_ready m), (unrecoverable_error m); cbn; auto 10.
Qed.

Lemma run_app (a : Attempt) (l1 l2 : list Event) (s : System) :
  run a (l1 ++ l2) s = run a l2 (run a l1 s).
Proof. apply fold_left_app. Qed.

Lemma run_invariant (a : Attempt) (P : System -> Prop) :
  (forall ev s, P s -> P (step a ev s)) ->
  forall schedule s, P s -> P (run a schedule s).
Proof.
  intros Hstep schedule.
  induction schedule as [|ev schedule IH]; intros s Hs; [exact Hs|].
  change (run a (ev :: schedule) s) with (run a schedule (step a ev s)).
  auto.
Qed.

Lemma Basic_enter (a : Attempt) : Basic a (enter a).
Proof.
  constructor; cbn; auto; try discriminate; try tauto.
Qed.

Ltac basic_close :=
  constructor; cbn in *; intros; subst;
  try match goal with
    | H : download_pc ?s = _ |- context [download_pc ?s] => rewrite H; cbn
    end;
  repeat match goal with
    | H : _ /\ _ |- _ => destruct H
    | H : Some _ = Some _ |- _ => injection H as H; subst
    | H : MReturned _ = MReturned _ |- _ => injection H as H; subst
    | H : ?x = MReturned _, Hr : forall rc, ?x = MReturned rc -> _ |- _ =>
        specialize (Hr _ H)
    | H : ?x = Some _, Hr : forall code, ?x = Some code -> _ |- _ =>
        specialize (Hr _ H)
    end;
  try discriminate; try congruence; try tauto; auto;
  try solve [intuition (subst; auto; try congruence; try lia)].

Lemma Basic_main_step (a : Attempt) (s : System) :
  exited s = None -> Basic a s -> Basic a (main_step a s).
Proof.
  intros Hx HB. pose proof HB as [Htg Hty Htk Hf Htr Hex He Hret Hen Hres].
  unfold main_step.
  destruct (main_pc s) eqn:Hpc; auto.
  - destruct (Z.ltb_spec (start_rc a) 0); basic_close.
  - basic_close.
  - basic_close.
  - destruct (download_pc s) eqn:Hd; auto; basic_close.
Qed.

Lemma Basic_download_step (a : Attempt) (s : System) :
  exited s = None -> Basic a s -> Basic a (download_step a s).
Proof.
  intros Hx HB. pose proof HB as [Htg Hty Htk Hf Htr Hex He Hret Hen Hres].
  unfold download_step.
  destruct (download_pc s) as [|[|contents rest]|contents rest|contents rest|]
    eqn:Hd; auto.
  - destruct (Z.eqb_spec (http_status_code a) 200) as [Hs|Hs];
      basic_close.
  - pose proof (DownloadHandler_check_shape contents (shared s)) as Hc.
    destruct (DownloadHandler_check contents (shared s)) as [[] m|code m|];
      [| |contradiction].
    + destruct Hc as (-> & Hue & _). basic_close.
    + destruct Hc as (-> & Hue & Hds & _). unfold process_exit.
      basic_close.
  - pose proof (DownloadHandler_push_shape contents (shared s)) as Hc.
    cbv zeta in Hc.
    destruct (DownloadHandler_push contents (shared s)) as [[] m|code m|];
      auto.
    + destruct Hc as (Hue & _ & Hue' & _ & _ & _ & Ht & Hk & Hh & _).
      basic_close.
    + destruct Hc as (-> & Hue & _ & Ht & Hk & Hh & _). unfold process_exit.
      basic_close.
  - pose proof (DownloadHandler_wait_shape contents (shared s)) as Hc.
    destruct (DownloadHandler_wait contents (shared s)) as [n m|code m|];
      auto.
    + destruct Hc as (_ & -> & Hue & _). basic_close.
    + destruct Hc as (-> & -> & Hue). unfold process_exit. basic_close.
Qed.

Lemma Basic_engine_read_step (a : Attempt) (s : System) :
  exited s = None -> Basic a s -> Basic a (engine_read_step s).
Proof.
  intros Hx HB. pose proof HB as [Htg Hty Htk Hf Htr Hex He Hret Hen Hres].
  unfold engine_read_step.
  destruct (engine_active s); auto.
  pose proof (readimage_shape (shared s)) as Hc.
  destruct (readimage (shared s)) as [[r frame] m|code m|];
    [|contradiction|basic_close].
  destruct Hc as [(Hue & _ & _ & ->)|(Hue & _ & _ & _ & ->)]; basic_close.
Qed.

Lemma Basic_engine_end_step (a : Attempt) (status : RECOVERY_STATUS)
    (s : System) :
  exited s = None -> Basic a s -> Basic a (engine_end_step status s).
Proof.
  intros Hx HB. pose proof HB as [Htg Hty Htk Hf Htr Hex He Hret Hen Hres].
  unfold engine_end_step, engine_active.
  destruct (engine_started s) eqn:Hst; auto.
  destruct (engine_result s); auto.
  destruct (engine_in_readimage s); auto. cbn.
  destruct (main_pc s) eqn:Hpc; basic_close.
Qed.

Lemma Basic_step (a : Attempt) (ev : Event) (s : System) :
  Basic a s -> Basic a (step a ev s).
Proof.
  intros HB. unfold step.
  destruct (exited s) eqn:Hx; auto.
  destruct ev.
  - now apply Basic_main_step.
  - now apply Basic_download_step.
  - now apply Basic_engine_read_step.
  - now apply Basic_engine_end_step.
  - pose proof HB as [Htg Hty Htk Hf Htr Hex He Hret Hen Hres].
    destruct (main_pc s) eqn:Hpc; auto. basic_close.
Qed.

Lemma Basic_run (a : Attempt) (schedule : list Event) :
  Basic a (run a schedule (enter a)).
Proof.
  apply (@run_invariant a (Basic a)); [intros ev s; apply Basic_step|].
  apply Basic_enter.
Qed.

(** ** Accounting of lengths and hashed bytes *)

Lemma total_length_nonneg (l : list (list byte)) : 0 <= total_length l.
Proof. induction l as [|c l IH]; cbn; lia. Qed.

Lemma total_length_app (l1 l2 : list (list byte)) :
  total_length (l1 ++ l2) = total_length l1 + total_length l2.
Proof. induction l1 as [|c l1 IH]; cbn; lia. Qed.

Lemma total_length_concat (l : list (list byte)) :
  total_length l = Z.of_nat (List.length (List.concat l)).
Proof.
  induction l as [|c l IH]; cbn; [reflexivity|].
  rewrite length_app. lia.
Qed.

Lemma total_length_zero_concat (l : list (list byte)) :
  total_length l = 0 -> List.concat l = [].
Proof.
  intros H. rewrite total_length_concat in H.
  destruct (List.concat l); [reflexivity|cbn in H; lia].
Qed.

Lemma downloaded_of_fits (contents : list byte) :
  Z.of_nat (List.length contents) < 2 ^ 64 ->
  downloaded_of contents = Z.of_nat (List.length contents).
Proof.
  intros H. unfold downloaded_of, wrap64. apply Z.mod_small. lia.
Qed.

Lemma firstn_downloaded_of (contents : list byte) :
  Z.of_nat (List.length contents) < 2 ^ 64 ->
  firstn (Z.to_nat (downloaded_of contents)) contents = contents.
Proof.
  intros H. rewrite downloaded_of_fits by assumption.
  rewrite Nat2Z.id. apply firstn_all.
Qed.

Lemma wrap64_small (z : Z) : 0 <= z < 2 ^ 64 -> wrap64 z = z.
Proof. intros H. unfold wrap64. now apply Z.mod_small. Qed.


Section Accounting.

Variable a : Attempt.
Hypothesis length_range : 0 <= Uptane.length (attempt_target a).
Hypothesis transfer_fits : total_length (chunks a) < 2 ^ 64.

Lemma Accounted_enter : Accounted a (enter a).
Proof.
  constructor; cbn; intros; auto; try lia; try discriminate.
  unfold hasher_fed. cbn.
  now destruct (Uptane.hashes_0_type (attempt_target a)).
Qed.

Ltac acct_close :=
  constructor; unfold remaining in *; cbn in *; intros;
  try match goal with
    | H : download_pc ?s = _ |- _ => rewrite H in *; cbn in *
    end;
  eauto; try lia; try discriminate; try congruence.

Lemma Accounted_main_step (s : System) :
  exited s = None -> Basic a s -> Accounted a s ->
  Accounted a (main_step a s).
Proof.
  intros Hx HB HA. pose proof HA as [Hn Hl Hfed Hp Hpl Hb].
  unfold main_step.
  destruct (main_pc s) eqn:Hpc; auto.
  - destruct (Z.ltb_spec (start_rc a) 0); acct_close.
  - assert (Hd : download_pc s = DNotStarted)
      by (apply (basic_early HB); auto).
    unfold remaining in *. rewrite Hd in *. acct_close.
  - acct_close.
  - destruct (download_pc s) eqn:Hd; auto.
    unfold remaining in *. rewrite Hd in *. acct_close.
Qed.

Lemma chunk_fits (s : System) (contents : list byte)
    (rest : list (list byte)) :
  exited s = None -> Accounted a s ->
  remaining a s = contents :: rest ->
  0 <= downloaded_length (ds (shared s))
  /\ Z.of_nat (List.length contents) < 2 ^ 64
  /\ downloaded_length (ds (shared s)) + Z.of_nat (List.length contents)
     < 2 ^ 64.
Proof.
  intros Hx HA Hrem.
  pose proof (acct_nonneg HA Hx) as Hn.
  pose proof (acct_length HA Hx) as Hl.
  rewrite Hrem in Hl. cbn in Hl.
  pose proof (total_length_nonneg rest). lia.
Qed.

Lemma Accounted_download_step (s : System) :
  exited s = None -> Basic a s -> Accounted a s ->
  Accounted a (download_step a s).
Proof.
  intros Hx HB HA. pose proof HA as [Hn Hl Hfed Hp Hpl Hb].
  pose proof (basic_target HB) as Htg.
  unfold download_step.
  destruct (download_pc s)
    as [|[|contents rest]|contents rest|contents rest|] eqn:Hd; auto.
  - destruct (Z.eqb_spec (http_status_code a) 200); acct_close.
  - destruct (@chunk_fits s contents rest Hx HA)
      as (Hdl & Hc & Hsum); [unfold remaining; now rewrite Hd|].
    pose proof (DownloadHandler_check_shape contents (shared s)) as Hs.
    destruct (DownloadHandler_check contents (shared s)) as [[] m|code m|];
      [| |contradiction].
    + destruct Hs as (-> & _ & Hle).
      rewrite downloaded_of_fits, wrap64_small, Htg in Hle by lia.
      acct_close.
    + destruct Hs as (_ & _ & Hds & Hbuf & Hrd).
      unfold process_exit. acct_close.
      unfold pending in *. now rewrite Hbuf, Hrd.
  - destruct (@chunk_fits s contents rest Hx HA)
      as (Hdl & Hc & Hsum); [unfold remaining; now rewrite Hd|].
    pose proof (DownloadHandler_push_shape contents (shared s)) as Hs.
    cbv zeta in Hs. rewrite firstn_downloaded_of in Hs by assumption.
    rewrite downloaded_of_fits, wrap64_small in Hs by lia.
    specialize (Hp Hx _ _ eq_refl).
    specialize (Hl Hx). specialize (Hfed Hx). specialize (Hpl Hx).
    unfold remaining in Hl, Hfed. rewrite Hd in Hl, Hfed.
    cbn in Hl, Hfed.
    destruct (DownloadHandler_push contents (shared s)) as [[] m|code m|];
      auto.
    + destruct Hs as (_ & Hrd & _ & Hrd' & _ & Hbuf & _ & _ & _ & Hdl'
                      & Hfed' & _).
      unfold pending in *. rewrite Hrd in *.
      constructor; unfold remaining, pending; cbn; intros;
        rewrite ?Hdl', ?Hfed', ?Hrd', ?Hbuf; try lia; try discriminate.
      now rewrite <- app_assoc.
    + destruct Hs as (_ & _ & _ & _ & _ & _ & Hpe).
      unfold process_exit. acct_close.
  - pose proof (DownloadHandler_wait_shape contents (shared s)) as Hs.
    destruct (DownloadHandler_wait contents (shared s)) as [n m|code m|];
      auto.
    + destruct Hs as (_ & -> & _). acct_close.
    + destruct Hs as (_ & -> & _). unfold process_exit. acct_close.
Qed.

Lemma Accounted_engine_read_step (s : System) :
  exited s = None -> Accounted a s -> Accounted a (engine_read_step s).
Proof.
  intros Hx HA. pose proof HA as [Hn Hl Hfed Hp Hpl Hb].
  unfold engine_read_step.
  destruct (engine_active s); auto.
  pose proof (readimage_shape (shared s)) as Hs.
  destruct (readimage (shared s)) as [[r frame] m|code m|];
    [|contradiction|acct_close].
  destruct Hs as [(_ & _ & -> & ->)|(_ & Hrd & _ & -> & ->)];
    [acct_close|].
  unfold pending in *. rewrite Hrd in *.
  constructor; unfold remaining; cbn; intros; eauto;
    rewrite ?total_length_app; cbn; try specialize (Hpl Hx); lia.
Qed.

Lemma Accounted_engine_end_step (status : RECOVERY_STATUS) (s : System) :
  exited s = None -> Accounted a s ->
  Accounted a (engine_end_step status s).
Proof.
  intros Hx HA. pose proof HA as [Hn Hl Hfed Hp Hpl Hb].
  unfold engine_end_step.
  destruct (engine_active s && negb (engine_in_readimage s)); auto.
  acct_close.
Qed.

Lemma Accounted_step (ev : Event) (s : System) :
  Basic a s /\ Accounted a s ->
  Basic a (step a ev s) /\ Accounted a (step a ev s).
Proof.
  intros [HB HA]. split; [now apply Basic_step|].
  unfold step. destruct (exited s) eqn:Hx; auto.
  destruct ev.
  - now apply Accounted_main_step.
  - now apply Accounted_download_step.
  - now apply Accounted_engine_read_step.
  - now apply Accounted_engine_end_step.
  - pose proof HA as [Hn Hl Hfed Hp Hpl Hb].
    destruct (main_pc s); auto; acct_close.
Qed.

Lemma Accounted_run (schedule : list Event) :
  Accounted a (run a schedule (enter a)).
Proof.
  refine (proj2 (@run_invariant a (fun s => Basic a s /\ Accounted a s)
                   _ schedule (enter a) _)).
  - intros ev s. apply Accounted_step.
  - split; [apply Basic_enter|apply Accounted_enter].
Qed.

End Accounting.

(** ** When the callback goes through, and when it ends the process *)

Lemma DownloadHandler_check_returns (contents : list byte) (m : Shared) :
  unrecoverable_error m = false ->
  wrap64 (downloaded_length (ds m) + downloaded_of contents)
  <= Uptane.length (target (ds m)) ->
  DownloadHandler_check contents m = Returns tt m.
Proof.
  intros Hue Hle. unfold DownloadHandler_check. rewrite Hue.
  destruct (Z.ltb_spec (Uptane.length (target (ds m)))
              (wrap64 (downloaded_length (ds m) + downloaded_of contents)));
    [lia|reflexivity].
Qed.

Lemma DownloadHandler_check_over_length (contents : list byte) (m : Shared) :
  unrecoverable_error m = false ->
  Uptane.length (target (ds m))
  < wrap64 (downloaded_length (ds m) + downloaded_of contents) ->
  DownloadHandler_check contents m
  = Exits (-1) (store_unrecoverable_error m).
Proof.
  intros Hue Hlt. unfold DownloadHandler_check. rewrite Hue.
  destruct (Z.ltb_spec (Uptane.length (target (ds m)))
              (wrap64 (downloaded_length (ds m) + downloaded_of contents)));
    [reflexivity|lia].
Qed.

Lemma DownloadHandler_push_returns (contents : list byte) (m : Shared) :
  let bytes := firstn (Z.to_nat (downloaded_of contents)) contents in
  unrecoverable_error m = false ->
  data_ready m = false ->
  hash_type (ds m) <> kUnknownAlgorithm ->
  (wrap64 (downloaded_length (ds m) + downloaded_of contents)
   = Uptane.length (target (ds m)) ->
   digest_of (hash_type (ds m)) (hasher_fed (ds m) ++ bytes)
   = Some (Uptane.sha256Hash (target (ds m)))) ->
  exists m', DownloadHandler_push contents m = Returns tt m'.
Proof.
  intros bytes Hue Hrd Hk Hdig. unfold DownloadHandler_push. fold bytes.
  rewrite Hue, Hrd. cbn.
  pose proof (hasher_update_shape bytes (ds m)) as Hu.
  destruct (hasher_update bytes (ds m)) as [d'|]; [|contradiction].
  destruct Hu as (_ & Hdl & Hty & Htg & _ & Hfed). cbn.
  rewrite hasher_HashString_digest. cbn.
  rewrite Hty, Htg, Hdl, hasher_fed_set_downloaded_length, Hfed.
  destruct (Z.eqb_spec
              (wrap64 (downloaded_length (ds m) + downloaded_of contents))
              (Uptane.length (target (ds m)))) as [He|He]; [|eauto].
  rewrite (Hdig He), String.eqb_refl. cbn. eauto.
Qed.

Lemma DownloadHandler_push_mismatch (contents : list byte) (m : Shared)
    (final_hash : string) :
  let bytes := firstn (Z.to_nat (downloaded_of contents)) contents in
  unrecoverable_error m = false ->
  data_ready m = false ->
  wrap64 (downloaded_length (ds m) + downloaded_of contents)
  = Uptane.length (target (ds m)) ->
  digest_of (hash_type (ds m)) (hasher_fed (ds m) ++ bytes)
  = Some final_hash ->
  final_hash <> Uptane.sha256Hash (target (ds m)) ->
  exists m',
    DownloadHandler_push contents m = Exits (-1) m'
    /\ unrecoverable_error m' = true /\ data_ready m' = false.
Proof.
  intros bytes Hue Hrd He Hdig Hne. unfold DownloadHandler_push. fold bytes.
  rewrite Hue, Hrd. cbn.
  pose proof (hasher_update_shape bytes (ds m)) as Hu.
  destruct (hasher_update bytes (ds m)) as [d'|];
    [|rewrite Hu in Hdig; discriminate].
  destruct Hu as (_ & Hdl & Hty & Htg & _ & Hfed). cbn.
  rewrite hasher_HashString_digest. cbn.
  rewrite Hty, Htg, Hdl, hasher_fed_set_downloaded_length, Hfed, Hdig.
  rewrite He, Z.eqb_refl.
  destruct (String.eqb_spec final_hash (Uptane.sha256Hash (target (ds m))));
    [contradiction|].
  eexists. repeat split; cbn; auto.
Qed.

Lemma DownloadHandler_push_unknown_algorithm (contents : list byte)
    (m : Shared) :
  unrecoverable_error m = false ->
  data_ready m = false ->
  hash_type (ds m) = kUnknownAlgorithm ->
  exists m',
    DownloadHandler_push contents m = Exits (-1) m'
    /\ unrecoverable_error m' = true /\ data_ready m' = false.
Proof.
  intros Hue Hrd Hk. unfold DownloadHandler_push.
  rewrite Hue, Hrd. cbn. unfold hasher_update. cbn. rewrite Hk.
  eexists. repeat split; cbn; auto.
Qed.

Lemma DownloadHandler_wait_returns (contents : list byte) (m : Shared) :
  unrecoverable_error m = false -> data_read m = true ->
  DownloadHandler_wait contents m = Returns (downloaded_of contents) m.
Proof.
  intros Hue Hrd. unfold DownloadHandler_wait. now rewrite Hue, Hrd.
Qed.

Lemma readimage_takes (m : Shared) :
  unrecoverable_error m = false -> data_ready m = true ->
  readimage m
  = Returns (static_cast_int (Z.of_nat (List.length (data_buffer m))),
             Some {| data_buffer_copy := data_buffer m;
                     pbuf := Dangling;
                     size := static_cast_int
                               (Z.of_nat (List.length (data_buffer m))) |})
            (store_flags false true m).
Proof.
  intros Hue Hrd. unfold readimage. now rewrite Hue, Hrd.
Qed.

Lemma no_fault_before_finish (a : Attempt) (s : System) :
  Basic a s -> exited s = None -> download_pc s <> DFinished ->
  unrecoverable_error (shared s) = false.
Proof.
  intros HB Hx Hpc.
  destruct (unrecoverable_error (shared s)) eqn:Hue; [|reflexivity].
  destruct (basic_fault HB Hx Hue) as [Hd _]. contradiction.
Qed.

(** ** Transfers of the declared length and digest *)

Section CleanTransfer.

Variable a : Attempt.
Hypothesis length_fits : Uptane.length (attempt_target a) < 2 ^ 64.
Hypothesis exact_length :
  total_length (chunks a) = Uptane.length (attempt_target a).
Hypothesis digest_matches :
  digest_of (Uptane.hashes_0_type (attempt_target a))
    (List.concat (chunks a))
  = Some (Uptane.sha256Hash (attempt_target a)).

Lemma clean_length_range : 0 <= Uptane.length (attempt_target a).
Proof. rewrite <- exact_length. apply total_length_nonneg. Qed.

Lemma clean_transfer_fits : total_length (chunks a) < 2 ^ 64.
Proof. now rewrite exact_length. Qed.

Lemma clean_check (s : System) (contents : list byte)
    (rest : list (list byte)) :
  Basic a s -> Accounted a s -> exited s = None ->
  download_pc s = DFetch (contents :: rest) ->
  DownloadHandler_check contents (shared s) = Returns tt (shared s).
Proof.
  intros HB HA Hx Hpc.
  apply DownloadHandler_check_returns.
  - apply (no_fault_before_finish HB Hx). rewrite Hpc. discriminate.
  - assert (Hrem : remaining a s = contents :: rest)
      by (unfold remaining; now rewrite Hpc).
    destruct (chunk_fits clean_transfer_fits Hx HA Hrem) as (Hn & Hc & Hs).
    pose proof (acct_length HA Hx) as Hl. rewrite Hrem in Hl. cbn in Hl.
    pose proof (total_length_nonneg rest).
    rewrite downloaded_of_fits, wrap64_small, (basic_target HB) by lia.
    lia.
Qed.

Lemma clean_push (s : System) (contents : list byte)
    (rest : list (list byte)) :
  Basic a s -> Accounted a s -> exited s = None ->
  download_pc s = DPush contents rest ->
  data_ready (shared s) = false ->
  exists m', DownloadHandler_push contents (shared s) = Returns tt m'.
Proof.
  intros HB HA Hx Hpc Hrd.
  assert (Hrem : remaining a s = contents :: rest)
    by (unfold remaining; now rewrite Hpc).
  destruct (chunk_fits clean_transfer_fits Hx HA Hrem) as (Hn & Hc & Hs).
  pose proof (acct_length HA Hx) as Hl. rewrite Hrem in Hl. cbn in Hl.
  pose proof (acct_fed HA Hx) as Hfed. rewrite Hrem in Hfed. cbn in Hfed.
  pose proof (total_length_nonneg rest) as Hr.
  apply DownloadHandler_push_returns; auto.
  - apply (no_fault_before_finish HB Hx). rewrite Hpc. discriminate.
  - rewrite (basic_hash_type HB). intros Hk.
    rewrite Hk in digest_matches. discriminate.
  - rewrite firstn_downloaded_of, downloaded_of_fits, wrap64_small,
      (basic_target HB), (basic_hash_type HB) by lia.
    intros He.
    assert (Hz : total_length rest = 0) by lia.
    apply total_length_zero_concat in Hz.
    rewrite Hz, app_nil_r in Hfed. now rewrite Hfed.
Qed.

Lemma clean_no_exit_step (ev : Event) (s : System) :
  Basic a s -> Accounted a s -> exited s = None ->
  exited (step a ev s) = None.
Proof.
  intros HB HA Hx. unfold step. rewrite Hx.
  destruct ev.
  - unfold main_step.
    destruct (main_pc s); cbn; auto.
    + now destruct (start_rc a <? 0).
    + now destruct (download_pc s).
  - unfold download_step.
    destruct (download_pc s)
      as [|[|contents rest]|contents rest|contents rest|] eqn:Hpc; auto.
    + now destruct (negb (http_status_code a =? 200)).
    + now rewrite (clean_check HB HA Hx Hpc).
    + destruct (data_ready (shared s)) eqn:Hrd.
      * pose proof (no_fault_before_finish HB Hx) as Hue.
        unfold DownloadHandler_push. rewrite Hrd, Hue; [assumption|].
        rewrite Hpc. discriminate.
      * destruct (clean_push HB HA Hx Hpc Hrd) as [m' ->]. exact Hx.
    + pose proof (DownloadHandler_wait_shape contents (shared s)) as Hs.
      destruct (DownloadHandler_wait contents (shared s)) as [n m|code m|];
        auto.
      destruct Hs as (_ & _ & Hue).
      rewrite (no_fault_before_finish HB Hx) in Hue; [discriminate|].
      rewrite Hpc. discriminate.
  - unfold engine_read_step.
    destruct (engine_active s); auto.
    pose proof (readimage_shape (shared s)) as Hs.
    destruct (readimage (shared s)) as [[r frame] m|code m|];
      [auto|contradiction|auto].
  - unfold engine_end_step.
    now destruct (engine_active s && negb (engine_in_readimage s)).
  - now destruct (main_pc s).
Qed.

Lemma clean_never_exits (schedule : list Event) :
  exited (run a schedule (enter a)) = None.
Proof.
  refine (proj2 (@run_invariant a
                   (fun s => (Basic a s /\ Accounted a s)
                             /\ exited s = None)
                   _ schedule (enter a) _)).
  - intros ev s [[HB HA] Hx]. split.
    + apply Accounted_step; [apply clean_transfer_fits|now split].
    + now apply clean_no_exit_step.
  - split; [split; [apply Basic_enter|]|reflexivity].
    apply Accounted_enter. apply clean_length_range.
Qed.


Lemma invariants_step (ev : Event) (s : System) :
  Basic a s -> Accounted a s ->
  Basic a (step a ev s) /\ Accounted a (step a ev s).
Proof.
  intros HB HA. apply Accounted_step; [apply clean_transfer_fits|].
  now split.
Qed.

Lemma chunk_round_runs (s : System) (contents : list byte)
    (rest : list (list byte)) :
  Ready a s (contents :: rest) ->
  Ready a (run a chunk_round s) rest
  /\ pulled (run a chunk_round s) = pulled s ++ [contents].
Proof.
  intros [HB HA Hx Hpc Hrd Hen Hres Hidle Hmain].
  change (run a chunk_round s)
    with (step a EvDownload
            (step a EvEngineRead
               (step a EvDownload (step a EvDownload s)))).
  (* the check *)
  destruct (invariants_step EvDownload HB HA) as [HB1 HA1].
  assert (H1 : step a EvDownload s
               = set_download_pc (DPush contents rest)
                   (set_shared (shared s) s)).
  { unfold step. rewrite Hx. unfold download_step.
    now rewrite Hpc, (clean_check HB HA Hx Hpc). }
  rewrite H1 in *. set (s1 := set_download_pc _ _) in *.
  (* the push *)
  destruct (invariants_step EvDownload HB1 HA1) as [HB2 HA2].
  destruct (@clean_push s1 contents rest HB1 HA1 Hx eq_refl Hrd)
    as [m2 Hm2].
  change (shared s1) with (shared s) in Hm2.
  assert (H2 : step a EvDownload s1
               = set_download_pc (DWait contents rest)
                   (set_shared m2 s1)).
  { unfold step. change (exited s1) with (exited s). rewrite Hx.
    unfold download_step. cbn [download_pc s1 set_download_pc].
    change (shared s1) with (shared s). now rewrite Hm2. }
  rewrite H2 in *. set (s2 := set_download_pc _ (set_shared m2 s1)) in *.
  pose proof (DownloadHandler_push_shape contents (shared s)) as Hs.
  cbv zeta in Hs. rewrite Hm2 in Hs.
  destruct Hs as (_ & _ & Hue2 & Hrd2 & Hread2 & Hbuf2 & _).
  assert (Hfit : Z.of_nat (List.length contents) < 2 ^ 64).
  { assert (Hrem : remaining a s = contents :: rest)
      by (unfold remaining; now rewrite Hpc).
    apply (chunk_fits clean_transfer_fits Hx HA Hrem). }
  rewrite firstn_downloaded_of in Hbuf2 by assumption.
  (* the engine takes the frame *)
  destruct (invariants_step EvEngineRead HB2 HA2) as [HB3 HA3].
  assert (H3 : step a EvEngineRead s2
               = {| shared := store_flags false true m2;
                    main_pc := main_pc s;
                    download_pc := DWait contents rest;
                    engine_started := engine_started s;
                    engine_in_readimage := false;
                    engine_result := engine_result s;
                    pulled := pulled s ++ [contents];
                    exited := exited s |}).
  { unfold step. change (exited s2) with (exited s). rewrite Hx.
    unfold engine_read_step, engine_active.
    change (engine_started s2) with (engine_started s).
    change (engine_result s2) with (engine_result s).
    change (shared s2) with m2.
    rewrite Hen, Hres, (@readimage_takes m2 Hue2 Hrd2). cbn.
    now rewrite ?Hx, ?Hbuf2, ?Hen, ?Hres. }
  rewrite H3 in *. clear H3.
  set (s3 := {| shared := store_flags false true m2 |}) in *.
  (* the acknowledgement *)
  destruct (invariants_step EvDownload HB3 HA3) as [HB4 HA4].
  assert (H4 : step a EvDownload s3
               = set_download_pc (DFetch rest) s3).
  { unfold step. change (exited s3) with (exited s). rewrite Hx.
    unfold download_step. cbn [download_pc s3].
    rewrite DownloadHandler_wait_returns; [reflexivity| |reflexivity].
    exact Hue2. }
  rewrite H4 in *.
  split; [|reflexivity].
  constructor; cbn; auto.
Qed.

Lemma chunk_rounds_run (rest : list (list byte)) :
  forall s, Ready a s rest ->
  Ready a (run a (chunk_rounds rest) s) []
  /\ pulled (run a (chunk_rounds rest) s) = pulled s ++ rest.
Proof.
  induction rest as [|contents rest IH]; intros s Hs.
  - cbn. now rewrite app_nil_r.
  - cbn [chunk_rounds]. rewrite run_app.
    destruct (chunk_round_runs Hs) as [Hs1 Hp1].
    destruct (IH _ Hs1) as [Hs2 Hp2].
    split; [assumption|]. rewrite Hp2, Hp1, <- app_assoc. reflexivity.
Qed.

Hypothesis engine_starts : 0 <= start_rc a.

Lemma startup_runs : Ready a (run a [EvMain; EvMain; EvMain] (enter a))
                       (chunks a).
Proof.
  pose proof (Basic_run a [EvMain; EvMain; EvMain]) as HB.
  pose proof (@Accounted_run a clean_length_range clean_transfer_fits
                [EvMain; EvMain; EvMain]) as HA.
  revert HB HA. unfold run. cbn.
  destruct (Z.ltb_spec (start_rc a) 0); [lia|]. cbn.
  intros HB HA. constructor; cbn; auto.
Qed.

(** The natural schedule takes a clean transfer to the return of
    [swupdate_install], with the value the transport status decides. *)
Lemma natural_schedule_runs (status : RECOVERY_STATUS) :
  let s := run a (natural_schedule a status) (enter a) in
  main_pc s = MReturned (if http_status_code a =? 200
                         then EXIT_SUCCESS else EXIT_FAILURE)
  /\ engine_result s = Some status
  /\ pulled s = chunks a
  /\ exited s = None.
Proof.
  unfold natural_schedule. rewrite !run_app.
  destruct (chunk_rounds_run startup_runs) as [Hs Hp].
  set (s := run a (chunk_rounds (chunks a)) _) in *.
  destruct Hs as [HB _ Hx Hpc Hrd Hen Hres Hidle Hmain].
  assert (Hpulled : pulled s = chunks a).
  { rewrite Hp. unfold run. cbn.
    now destruct (start_rc a <? 0). }
  change (run a [EvDownload; EvEngineEnd status; EvMain] s)
    with (step a EvMain (step a (EvEngineEnd status) (step a EvDownload s))).
  assert (H1 : step a EvDownload s
               = set_download_pc DFinished
                   (if negb (http_status_code a =? 200)
                    then set_shared
                           (store_unrecoverable_error (shared s)) s
                    else s)).
  { unfold step. rewrite Hx. unfold download_step. now rewrite Hpc. }
  rewrite H1. clear H1.
  assert (Hue : unrecoverable_error (shared s) = false)
    by (apply (no_fault_before_finish HB Hx); rewrite Hpc; discriminate).
  destruct (Z.eqb_spec (http_status_code a) 200) as [Hst|Hst];
    cbn [negb];
    unfold step; cbn; rewrite Hx;
    unfold engine_end_step, engine_active; cbn;
    rewrite Hen, Hres, Hidle, Hmain; cbn; rewrite Hx;
    unfold main_step; cbn; rewrite ?Hue; repeat split; auto.
Qed.

(** *** An attempt entered with the statics of an earlier one *)

Variable statics : Shared.
Hypothesis no_fault_recorded : unrecoverable_error statics = false.
Hypothesis slot_empty : data_ready statics = false.






End CleanTransfer.

(** ** Transfers of the declared length and another digest *)

Section IntegrityMismatch.

Variable a : Attempt.
Hypothesis length_fits : Uptane.length (attempt_target a) < 2 ^ 64.
Hypothesis exact_length :
  total_length (chunks a) = Uptane.length (attempt_target a).
Hypothesis some_chunk : chunks a <> [].
Hypothesis digest_differs :
  digest_of (Uptane.hashes_0_type (attempt_target a))
    (List.concat (chunks a))
  <> Some (Uptane.sha256Hash (attempt_target a)).



Lemma mismatch_length_range : 0 <= Uptane.length (attempt_target a).
Proof. rewrite <- exact_length. apply total_length_nonneg. Qed.

Lemma mismatch_transfer_fits : total_length (chunks a) < 2 ^ 64.
Proof. now rewrite exact_length. Qed.

Lemma Guarded_step (ev : Event) (s : System) :
  Basic a s -> Accounted a s -> Guarded a s -> Guarded a (step a ev s).
Proof.
  intros HB HA HG. unfold step.
  destruct (exited s) eqn:Hx; [assumption|].
  pose proof (guard_unfinished HG) as Hu.
  pose proof (guard_verified HG Hx) as Hv.
  destruct ev.
  - unfold main_step.
    destruct (main_pc s); try assumption.
    + destruct (start_rc a <? 0); constructor; cbn; auto.
    + constructor; cbn; [discriminate|now left].
    + constructor; cbn; auto.
    + destruct (download_pc s); try assumption. contradiction.
  - unfold download_step.
    destruct (download_pc s)
      as [|[|contents rest]|contents rest|contents rest|] eqn:Hpc;
      try assumption.
    + exfalso. destruct Hv as [Hv|Hv]; [now apply some_chunk|].
      pose proof (acct_length HA Hx) as Hl.
      pose proof (acct_fed HA Hx) as Hfed.
      unfold remaining in Hl, Hfed. rewrite Hpc in Hl, Hfed.
      cbn in Hl, Hfed. rewrite app_nil_r in Hfed.
      apply digest_differs. rewrite <- Hfed. apply Hv. lia.
    + pose proof (DownloadHandler_check_shape contents (shared s)) as Hs.
      destruct (DownloadHandler_check contents (shared s))
        as [[] m|code m|]; [| |assumption].
      * destruct Hs as (-> & _).
        constructor; cbn; [discriminate|auto].
      * constructor; cbn; [now rewrite Hpc|discriminate].
    + pose proof (DownloadHandler_push_shape contents (shared s)) as Hs.
      cbv zeta in Hs.
      destruct (DownloadHandler_push contents (shared s))
        as [[] m|code m|]; [| |assumption].
      * destruct Hs as (_ & _ & _ & _ & _ & _ & _ & _ & _ & _ & _ & _
                        & Hd).
        rewrite (basic_target HB), (basic_hash_type HB) in Hd.
        constructor; cbn; [discriminate|auto].
      * constructor; cbn; [now rewrite Hpc|discriminate].
    + pose proof (DownloadHandler_wait_shape contents (shared s)) as Hs.
      destruct (DownloadHandler_wait contents (shared s))
        as [n m|code m|]; [| |assumption].
      * destruct Hs as (_ & -> & _).
        constructor; cbn; [discriminate|].
        intros _. destruct Hv as [Hv|Hv]; [contradiction|now right].
      * constructor; cbn; [now rewrite Hpc|discriminate].
  - unfold engine_read_step.
    destruct (engine_active s); [|assumption].
    pose proof (readimage_shape (shared s)) as Hs.
    destruct (readimage (shared s)) as [[r frame] m|code m|];
      [|contradiction|constructor; cbn; auto].
    destruct Hs as [(_ & _ & _ & ->)|(_ & _ & _ & _ & ->)];
      constructor; cbn; auto.
  - unfold engine_end_step.
    destruct (engine_active s && negb (engine_in_readimage s));
      [constructor; cbn; auto|assumption].
  - destruct (main_pc s); try assumption. constructor; cbn; auto.
Qed.

(** With at least one chunk, the download thread never gets past
    [http_->download]: [swupdate_install] cannot return success. *)
Lemma mismatch_never_finishes (schedule : list Event) :
  download_pc (run a schedule (enter a)) <> DFinished.
Proof.
  apply (guard_unfinished (a := a)).
  refine (proj2 (@run_invariant a
                   (fun s => (Basic a s /\ Accounted a s) /\ Guarded a s)
                   _ schedule (enter a) _)).
  - intros ev s [[HB HA] HG]. split.
    + apply Accounted_step; [apply mismatch_transfer_fits|now split].
    + now apply Guarded_step.
  - split; [split; [apply Basic_enter|]|].
    + apply Accounted_enter. apply mismatch_length_range.
    + constructor; cbn; [discriminate|now left].
Qed.

Lemma mismatch_never_completes (schedule : list Event) :
  forall r, install (run a schedule (enter a)) = Some r ->
  data.result_code r = data.kInstallFailed /\ start_rc a < 0.
Proof.
  intros r. unfold install.
  destruct (main_pc (run a schedule (enter a))) eqn:Hpc;
    try discriminate.
  intros [= <-].
  destruct (basic_return (Basic_run a schedule) Hpc)
    as [(Hrc & -> & _)|(Hd & _)].
  - now split.
  - now apply mismatch_never_finishes in Hd.
Qed.

End IntegrityMismatch.

(** ** The properties of the handoff *)

Lemma static_cast_int_small (z : Z) :
  0 <= z <= INT_MAX -> static_cast_int z = z.
Proof.
  unfold INT_MAX, static_cast_int. intros H.
  rewrite Z.mod_small; lia.
Qed.

Lemma exited_no_result (a : Attempt) (s : System) (code : Z) :
  Basic a s -> exited s = Some code -> install s = None.
Proof.
  intros HB Hx. unfold install.
  destruct (main_pc s) eqn:Hpc; try reflexivity.
  destruct (basic_exit HB Hx) as (_ & _ & Hin).
  destruct (basic_return HB Hpc) as [(_ & _ & Hd)|(Hd & _)];
    rewrite Hd in Hin; contradiction.
Qed.

Lemma transport_fault_result (a : Attempt) (s : System)
    (r : data.InstallationResult) :
  Basic a s -> http_status_code a <> 200 -> install s = Some r ->
  r = install_result EXIT_FAILURE
  /\ (download_pc s = DFinished \/ start_rc a < 0).
Proof.
  intros HB Hst. unfold install.
  destruct (main_pc s) eqn:Hpc; try discriminate.
  intros [= <-].
  destruct (basic_return HB Hpc) as [(Hrc & -> & _)|(Hd & ->)];
    [now auto|].
  rewrite (basic_transport HB Hd Hst). auto.
Qed.

(** C1 (as amended).  A fault met inside [DownloadHandler] does not come
    back to the caller of [install]: whenever the process has exited, it
    did so with [exit(-1)] while the download thread was inside
    [http_->download], [unrecoverable_error] is set and [install] has
    returned nothing; an over-length chunk, a digest mismatch at the
    declared length and the exception of an unknown hash algorithm each
    end in that [exit(-1)].  Only a transport status other than 200,
    recorded after [http_->download] has returned, reaches the caller:
    whenever [install] returns then, it returns the failure result. *)
Theorem callback_faults_exit_transport_fault_returns
    (a : Attempt) (schedule : list Event) :
  let s := run a schedule (enter a) in
  (forall code, exited s = Some code ->
     code = -1 /\ unrecoverable_error (shared s) = true
     /\ in_download (download_pc s) /\ install s = None)
  /\ (forall contents m,
        unrecoverable_error m = false ->
        Uptane.length (target (ds m))
        < wrap64 (downloaded_length (ds m) + downloaded_of contents) ->
        DownloadHandler_check contents m
        = Exits (-1) (store_unrecoverable_error m))
  /\ (forall contents m final_hash,
        unrecoverable_error m = false -> data_ready m = false ->
        wrap64 (downloaded_length (ds m) + downloaded_of contents)
        = Uptane.length (target (ds m)) ->
        digest_of (hash_type (ds m))
          (hasher_fed (ds m)
             ++ firstn (Z.to_nat (downloaded_of contents)) contents)
        = Some final_hash ->
        final_hash <> Uptane.sha256Hash (target (ds m)) ->
        exists m', DownloadHandler_push contents m = Exits (-1) m'
                   /\ unrecoverable_error m' = true)
  /\ (forall contents m,
        unrecoverable_error m = false -> data_ready m = false ->
        hash_type (ds m) = kUnknownAlgorithm ->
        exists m', DownloadHandler_push contents m = Exits (-1) m'
                   /\ unrecoverable_error m' = true)
  /\ (http_status_code a <> 200 ->
      forall r, install s = Some r ->
      r = {| data.result_code := data.kInstallFailed;
             data.description := "swupdate_install failed" |}).
Proof.
  intros s. pose proof (Basic_run a schedule) as HB. fold s in HB.
  repeat split.
  - now destruct (basic_exit HB H).
  - now destruct (basic_exit HB H) as (_ & ? & _).
  - now destruct (basic_exit HB H) as (_ & _ & ?).
  - exact (exited_no_result HB H).
  - intros contents m. apply DownloadHandler_check_over_length.
  - intros contents m final_hash Hue Hrd He Hd Hne.
    destruct (DownloadHandler_push_mismatch contents m Hue Hrd He Hd Hne)
      as (m' & Hm & Hu & _).
    eauto.
  - intros contents m Hue Hrd Hk.
    destruct (@DownloadHandler_push_unknown_algorithm contents m Hue Hrd Hk)
      as (m' & Hm & Hu & _).
    eauto.
  - intros Hst r Hr.
    now destruct (transport_fault_result HB Hst Hr) as [-> _].
Qed.

Lemma missed_signal_step (a : Attempt) (ev : Event) (s : System) :
  is_spurious ev = false -> missed_signal s -> missed_signal (step a ev s).
Proof.
  intros Hev Hs. pose proof Hs as [Hres Hpc]. unfold step.
  destruct (exited s); [assumption|].
  destruct ev; try discriminate.
  - unfold main_step, missed_signal.
    destruct Hpc as [Hpc|[Hpc|Hpc]]; rewrite Hpc; cbn; auto.
  - unfold download_step.
    destruct (download_pc s) as [|[|contents rest]|contents rest
                                 |contents rest|]; auto.
    + now destruct (negb (http_status_code a =? 200)).
    + now destruct (DownloadHandler_check contents (shared s)).
    + now destruct (DownloadHandler_push contents (shared s)).
    + now destruct (DownloadHandler_wait contents (shared s)).
  - unfold engine_read_step, engine_active.
    destruct (engine_result s) eqn:Her; [|contradiction].
    now rewrite andb_false_r.
  - unfold engine_end_step, engine_active.
    destruct (engine_result s) eqn:Her; [|contradiction].
    now rewrite andb_false_r.
Qed.



(** C4.  What the code does where it misses the claim: when the
    transport hands over no chunk at all, [DownloadHandler] never runs
    and with it the only comparison of digests; with status 200 and the
    engine started, the natural schedule ends with [install] returning
    [kNeedCompletion], whatever the target's length and expected digest
    are.  (With at least one chunk the code does what the claim says:
    [DownloadHandler_push_mismatch], [mismatch_never_completes].) *)
Theorem no_chunk_no_integrity_check (a : Attempt)
    (status : RECOVERY_STATUS) :
  chunks a = [] -> http_status_code a = 200 -> 0 <= start_rc a ->
  install (run a (natural_schedule a status) (enter a))
  = Some {| data.result_code := data.kNeedCompletion;
            data.description := "Application successful, need reboot" |}.
Proof.
  intros Hc Hst Hrc. unfold natural_schedule. rewrite Hc.
  unfold run, step, main_step. cbn.
  destruct (Z.ltb_spec (start_rc a) 0); [lia|]. cbn.
  rewrite Hc, Hst. reflexivity.
Qed.

(** C5.  For every chunk sequence (of a transfer that fits [uintmax_t],
    to a target whose length is not negative), in every execution: the
    bytes [readimage] has taken for the engine, together with the frame
    waiting in the slot, never exceed the target's length; and in a state where the
    next chunk would take the cumulative length over the target's, the
    callback records the fault and ends the process before it touches
    the slot: the buffer, [data_ready] and the frames taken are as
    before. *)
Theorem consumer_never_sees_excess (a : Attempt) (schedule : list Event) :
  0 <= Uptane.length (attempt_target a) ->
  total_length (chunks a) < 2 ^ 64 ->
  let s := run a schedule (enter a) in
  total_length (pulled s) + pending (shared s)
  <= Uptane.length (attempt_target a)
  /\ (forall contents rest,
        exited s = None ->
        download_pc s = DFetch (contents :: rest) ->
        Uptane.length (attempt_target a)
        < downloaded_length (ds (shared s))
          + Z.of_nat (List.length contents) ->
        let s' := step a EvDownload s in
        exited s' = Some (-1)
        /\ unrecoverable_error (shared s') = true
        /\ data_buffer (shared s') = data_buffer (shared s)
        /\ data_ready (shared s') = data_ready (shared s)
        /\ pulled s' = pulled s).
Proof.
  intros Hrange Hfits s.
  pose proof (Basic_run a schedule) as HB. fold s in HB.
  pose proof (@Accounted_run a Hrange Hfits schedule) as HA. fold s in HA.
  split; [exact (acct_bound HA)|].
  intros contents rest Hx Hpc Hover s'.
  assert (Hrem : remaining a s = contents :: rest)
    by (unfold remaining; now rewrite Hpc).
  destruct (chunk_fits Hfits Hx HA Hrem) as (Hn & Hc & Hsum).
  assert (Hs' : s' = process_exit (-1)
                       (store_unrecoverable_error (shared s)) s).
  { unfold s', step. rewrite Hx. unfold download_step. rewrite Hpc.
    rewrite DownloadHandler_check_over_length; [reflexivity| |].
    - apply (no_fault_before_finish HB Hx). rewrite Hpc. discriminate.
    - rewrite downloaded_of_fits, wrap64_small, (basic_target HB) by lia.
      exact Hover. }
  rewrite Hs'. cbn. auto.
Qed.

(** C7 (as amended).  The producer polls no flow-control token:
    [swupdate_install] builds the download context with a null token,
    which stays null in every execution, and no stretch of
    [DownloadHandler] reads the token: with any token in the context the
    callback does exactly what it does with any other. *)
Theorem token_never_polled (a : Attempt) (schedule : list Event) :
  token (ds (shared (run a schedule (enter a)))) = None
  /\ forall (tok : option FlowControlToken) (contents : list byte)
            (m : Shared),
       DownloadHandler_check contents (set_token tok m)
       = outcome_map (set_token tok) (DownloadHandler_check contents m)
       /\ DownloadHandler_push contents (set_token tok m)
          = outcome_map (set_token tok) (DownloadHandler_push contents m)
       /\ DownloadHandler_wait contents (set_token tok m)
          = outcome_map (set_token tok) (DownloadHandler_wait contents m).
Proof.
  split; [exact (basic_token (Basic_run a schedule))|].
  intros tok contents [buf [dl ty tg tk h256 h512] rd rdd ue].
  repeat split.
  - unfold DownloadHandler_check, set_token, set_ds,
      store_unrecoverable_error. cbn.
    destruct ue; [reflexivity|].
    now destruct (Uptane.length tg <? wrap64 (dl + downloaded_of contents)).
  - unfold DownloadHandler_push, set_token, set_ds, set_data_buffer,
      store_unrecoverable_error, store_flags, hasher_update,
      hasher_HashString, set_downloaded_length. cbn.
    destruct rd, ue; cbn; try reflexivity.
    destruct ty; cbn; try reflexivity;
      destruct (wrap64 (dl + downloaded_of contents) =? Uptane.length tg);
      cbn; try reflexivity;
      match goal with
      | |- context [String.eqb ?x ?y] => now destruct (String.eqb x y)
      end.
  - unfold DownloadHandler_wait, set_token, set_ds. cbn.
    now destruct rdd, ue.
Qed.

(** C8.  When the fetch ends with a status other than 200, in every
    execution: once [http_->download] has returned and the status was
    checked, [unrecoverable_error] is set; and whenever [install]
    returns, the download thread has finished (or never started, the
    engine having failed to start) and the result is [kInstallFailed].
    For a transfer that is otherwise clean there is an execution in
    which [install] does return it. *)
Theorem transport_fault_fails_install (a : Attempt) :
  http_status_code a <> 200 ->
  (forall schedule,
     let s := run a schedule (enter a) in
     (download_pc s = DFinished -> unrecoverable_error (shared s) = true)
     /\ (forall r, install s = Some r ->
         (download_pc s = DFinished \/ start_rc a < 0)
         /\ r = {| data.result_code := data.kInstallFailed;
                   data.description := "swupdate_install failed" |}))
  /\ (Uptane.length (attempt_target a) < 2 ^ 64 ->
      total_length (chunks a) = Uptane.length (attempt_target a) ->
      digest_of (Uptane.hashes_0_type (attempt_target a))
        (List.concat (chunks a))
      = Some (Uptane.sha256Hash (attempt_target a)) ->
      0 <= start_rc a ->
      exists schedule,
        let s := run a schedule (enter a) in
        download_pc s = DFinished
        /\ install s
           = Some {| data.result_code := data.kInstallFailed;
                     data.description := "swupdate_install failed" |}).
Proof.
  intros Hst. split.
  - intros schedule s.
    pose proof (Basic_run a schedule) as HB. fold s in HB.
    split.
    + intros Hd. exact (basic_transport HB Hd Hst).
    + intros r Hr.
      destruct (transport_fault_result HB Hst Hr) as [-> Hj]. auto.
  - intros Hfit Hlen Hdig Hrc. exists (natural_schedule a FAILURE).
    destruct (@natural_schedule_runs a Hfit Hlen Hdig Hrc FAILURE)
      as (Hpc & _).
    cbv zeta.
    pose proof (Basic_run a (natural_schedule a FAILURE)) as HB.
    destruct (basic_return HB Hpc) as [(Hneg & _)|(Hd & _)]; [lia|].
    split; [exact Hd|].
    unfold install. rewrite Hpc.
    destruct (Z.eqb_spec (http_status_code a) 200); [contradiction|].
    reflexivity.
Qed.

(** C9.  [readimage] never ends the process.  Whenever
    [unrecoverable_error] is set it returns the negative value -1 and
    leaves the statics alone; otherwise, with a frame in the slot, it
    makes a copy of the frame, stores [data_ready = false] and
    [data_read = true] (the slot is empty, and the producer's wait for the
    read is over: the callback returns to the transport) and returns the
    frame's length as the [int] it is cast to, which is the length itself
    up to [INT_MAX]; with neither, it waits.  The copy does not outlive
    the call: [*size] is the length, [*pbuf] dangles. *)
Theorem readimage_abort_or_take (m : Shared) :
  (forall code m', readimage m <> Exits code m')
  /\ (unrecoverable_error m = true ->
      readimage m = Returns (-1, None) m /\ -1 < 0)
  /\ (unrecoverable_error m = false -> data_ready m = true ->
      let size := static_cast_int (Z.of_nat (List.length (data_buffer m))) in
      let m' := store_flags false true m in
      readimage m
      = Returns (size, Some {| data_buffer_copy := data_buffer m;
                               pbuf := Dangling;
                               size := size |}) m'
      /\ data_ready m' = false
      /\ data_read m' = true
      /\ data_buffer m' = data_buffer m
      /\ (forall contents,
            DownloadHandler_wait contents m'
            = Returns (downloaded_of contents) m')
      /\ (Z.of_nat (List.length (data_buffer m)) <= INT_MAX ->
          size = Z.of_nat (List.length (data_buffer m))))
  /\ (unrecoverable_error m = false -> data_ready m = false ->
      readimage m = Waits).
Proof.
  split; [|split; [|split]].
  - intros code m' H. pose proof (readimage_shape m) as Hs.
    now rewrite H in Hs.
  - intros Hue. split; [|lia].
    unfold readimage. now rewrite Hue, orb_true_r.
  - intros Hue Hrd size m'. repeat split.
    + now apply readimage_takes.
    + intros contents. now apply DownloadHandler_wait_returns.
    + intros Hle. apply static_cast_int_small. lia.
  - intros Hue Hrd. unfold readimage. now rewrite Hue, Hrd.
Qed.

(** ** More properties of the handoff *)

(** X4.  One push, one pull.  After a push of a chunk (of a length that
    fits [size_t]) has gone through: a further push waits and the callback
    does not return to the transport; the slot holds exactly the bytes
    pushed, [readimage] copies them and reports their length, leaving a
    dangling [*pbuf]; after that a further [readimage] waits and the
    callback returns the chunk's length to the transport. *)
Theorem push_then_pull (contents : list byte) (m m' : Shared) :
  Z.of_nat (List.length contents) < 2 ^ 64 ->
  DownloadHandler_push contents m = Returns tt m' ->
  let size := static_cast_int (Z.of_nat (List.length contents)) in
  let taken := store_flags false true m' in
  (forall next, DownloadHandler_push next m' = Waits)
  /\ DownloadHandler_wait contents m' = Waits
  /\ data_buffer m' = contents
  /\ readimage m'
     = Returns (size, Some {| data_buffer_copy := contents;
                              pbuf := Dangling;
                              size := size |}) taken
  /\ readimage taken = Waits
  /\ DownloadHandler_wait contents taken
     = Returns (Z.of_nat (List.length contents)) taken.
Proof.
  intros Hfit Hpush size taken.
  pose proof (DownloadHandler_push_shape contents m) as Hs.
  cbv zeta in Hs. rewrite Hpush in Hs.
  destruct Hs as (_ & _ & Hue & Hrd & Hread & Hbuf & _).
  rewrite firstn_downloaded_of in Hbuf by assumption.
  split; [|split; [|split; [|split; [|split]]]].
  - intros next. unfold DownloadHandler_push. now rewrite Hrd, Hue.
  - unfold DownloadHandler_wait. now rewrite Hread, Hue.
  - exact Hbuf.
  - rewrite (@readimage_takes m' Hue Hrd), Hbuf. reflexivity.
  - unfold readimage, taken. cbn. now rewrite Hue.
  - rewrite DownloadHandler_wait_returns; [|exact Hue|reflexivity].
    now rewrite downloaded_of_fits.
Qed.

Lemma fault_stays_step (a : Attempt) (ev : Event) (s : System) :
  unrecoverable_error (shared s) = true ->
  unrecoverable_error (shared (step a ev s)) = true.
Proof.
  intros Hue. unfold step.
  destruct (exited s); [assumption|].
  destruct ev.
  - unfold main_step.
    destruct (main_pc s); cbn; auto.
    + now destruct (start_rc a <? 0).
    + now destruct (download_pc s).
  - unfold download_step.
    destruct (download_pc s) as [|[|contents rest]|contents rest
                                 |contents rest|]; auto.
    + now destruct (negb (http_status_code a =? 200)).
    + unfold DownloadHandler_check. now rewrite Hue.
    + unfold DownloadHandler_push. now rewrite Hue, orb_true_r.
    + unfold DownloadHandler_wait. now rewrite Hue, orb_true_r.
  - unfold engine_read_step.
    destruct (engine_active s); [|assumption].
    unfold readimage. now rewrite Hue, orb_true_r.
  - unfold engine_end_step.
    now destruct (engine_active s && negb (engine_in_readimage s)).
  - now destruct (main_pc s).
Qed.

(** X11.  A recorded fault is terminal.  From any state in which
    [unrecoverable_error] is set, whatever runs next: the flag stays set,
    every call of [readimage] returns -1 at once, and every stretch of
    [DownloadHandler] ends the process with [exit(-1)]. *)
Theorem fault_is_terminal (a : Attempt) (schedule : list Event)
    (s : System) :
  unrecoverable_error (shared s) = true ->
  let m := shared (run a schedule s) in
  unrecoverable_error m = true
  /\ readimage m = Returns (-1, None) m
  /\ forall contents,
       DownloadHandler_check contents m = Exits (-1) m
       /\ DownloadHandler_push contents m = Exits (-1) m
       /\ DownloadHandler_wait contents m = Exits (-1) m.
Proof.
  intros Hue m.
  assert (Hm : unrecoverable_error m = true).
  { unfold m.
    apply (@run_invariant a
             (fun s => unrecoverable_error (shared s) = true));
      [intros ev s0; apply fault_stays_step|exact Hue]. }
  split; [exact Hm|]. split.
  - unfold readimage. now rewrite Hm, orb_true_r.
  - intros contents. repeat split.
    + unfold DownloadHandler_check. now rewrite Hm.
    + unfold DownloadHandler_push. now rewrite Hm, orb_true_r.
    + unfold DownloadHandler_wait. now rewrite Hm, orb_true_r.
Qed.

Lemma never_started_step (a : Attempt) (ev : Event) (s : System) :
  start_rc a < 0 -> never_started a s ->
  never_started a (step a ev s)
  /\ (ev = EvMain \/ main_pc s = MReturned EXIT_FAILURE ->
      main_pc (step a ev s) = MReturned EXIT_FAILURE).
Proof.
  intros Hneg (Hm & Hd & Hen & Hres & Hp & Hx & Hpc).
  assert (Hlt : (start_rc a <? 0) = true) by now apply Z.ltb_lt.
  unfold step. rewrite Hx.
  destruct ev.
  - unfold main_step.
    destruct Hpc as [Hpc|Hpc]; rewrite Hpc, ?Hlt;
      unfold never_started; cbn; rewrite ?Hpc; auto 10.
  - unfold download_step. rewrite Hd.
    split; [unfold never_started; auto 10|].
    intros [?|?]; [discriminate|assumption].
  - unfold engine_read_step, engine_active. rewrite Hen. cbn.
    split; [unfold never_started; auto 10|].
    intros [?|?]; [discriminate|assumption].
  - unfold engine_end_step, engine_active. rewrite Hen. cbn.
    split; [unfold never_started; auto 10|].
    intros [?|?]; [discriminate|assumption].
  - destruct Hpc as [Hpc|Hpc]; rewrite Hpc;
      (split; [unfold never_started; auto 10|]);
      intros [?|?]; congruence.
Qed.

Lemma never_started_run (a : Attempt) (schedule : list Event) :
  start_rc a < 0 ->
  forall s, never_started a s ->
  never_started a (run a schedule s)
  /\ (In EvMain schedule \/ main_pc s = MReturned EXIT_FAILURE ->
      main_pc (run a schedule s) = MReturned EXIT_FAILURE).
Proof.
  intros Hneg.
  induction schedule as [|ev schedule IH]; intros s Hs.
  - split; [exact Hs|]. intros [[]|H]; exact H.
  - change (run a (ev :: schedule) s) with (run a schedule (step a ev s)).
    destruct (never_started_step ev Hneg Hs) as [Hs' Hret].
    destruct (IH _ Hs') as [Hs'' Hret'].
    split; [exact Hs''|].
    intros [[Hev|Hin]|Hpc]; auto.
Qed.


(** X7.  What [install] can return.  In every execution, a result of
    [install] is either [kInstallFailed], and then the engine failed to
    start or [unrecoverable_error] is set, or [kNeedCompletion], and then
    the engine started, the download thread has finished, no fault is
    recorded and the transport status was 200; it is never [kOk]. *)
Theorem install_outcomes (a : Attempt) (schedule : list Event)
    (r : data.InstallationResult) :
  let s := run a schedule (enter a) in
  install s = Some r ->
  (r = {| data.result_code := data.kInstallFailed;
          data.description := "swupdate_install failed" |}
   /\ (start_rc a < 0 \/ unrecoverable_error (shared s) = true))
  \/ (r = {| data.result_code := data.kNeedCompletion;
             data.description := "Application successful, need reboot" |}
      /\ 0 <= start_rc a /\ download_pc s = DFinished
      /\ unrecoverable_error (shared s) = false
      /\ http_status_code a = 200).
Proof.
  intros s. pose proof (Basic_run a schedule) as HB. fold s in HB.
  unfold install.
  destruct (main_pc s) eqn:Hpc; try discriminate.
  intros [= <-].
  destruct (basic_return HB Hpc) as [(Hneg & -> & _)|(Hd & ->)].
  - left. auto.
  - destruct (unrecoverable_error (shared s)) eqn:Hue; [left; auto|].
    right. repeat split; auto.
    + destruct (Z.ltb_spec (start_rc a) 0) as [Hneg|]; [|assumption].
      exfalso.
      assert (H0 : never_started a (enter a))
        by (unfold never_started; cbn; auto 10).
      destruct (never_started_run schedule Hneg H0) as [(_ & Hd0 & _) _].
      fold s in Hd0. congruence.
    + destruct (Z.eqb_spec (http_status_code a) 200) as [|Hst];
        [assumption|].
      rewrite (basic_transport HB Hd Hst) in Hue. discriminate.
Qed.

Lemma In_total_length (contents : list byte) (l : list (list byte)) :
  In contents l -> Z.of_nat (List.length contents) <= total_length l.
Proof.
  induction l as [|c l IH]; cbn; [contradiction|].
  pose proof (total_length_nonneg l).
  intros [->|Hin]; [lia|]. specialize (IH Hin). lia.
Qed.

Section Ordering.

Variable a : Attempt.
Hypothesis transfer_fits : total_length (chunks a) < 2 ^ 64.

Lemma Ordered_enter : Ordered a (enter a).
Proof.
  constructor; cbn; [now exists (chunks a)|reflexivity|reflexivity].
Qed.

Lemma next_chunk_fits (s : System) (contents : list byte)
    (rest : list (list byte)) :
  exited s = None -> Ordered a s -> remaining a s = contents :: rest ->
  Z.of_nat (List.length contents) < 2 ^ 64.
Proof.
  intros Hx HO Hrem.
  pose proof (ord_frames HO Hx) as Hf. rewrite Hrem in Hf.
  assert (Hin : In contents (chunks a)).
  { rewrite <- Hf. apply in_or_app. right. apply in_or_app. right.
    now left. }
  pose proof (In_total_length _ _ Hin). lia.
Qed.

Ltac ord_close :=
  constructor; unfold remaining, slot_in_step, slot in *; cbn in *; intros;
  try match goal with
    | H : download_pc ?s = _ |- _ => rewrite H in *; cbn in *
    end;
  try match goal with
    | H : exited _ = None -> ?G |- ?G => apply H; assumption
    end;
  eauto; try discriminate; try congruence.

Lemma Ordered_main_step (s : System) :
  exited s = None -> Basic a s -> Ordered a s -> Ordered a (main_step a s).
Proof.
  intros Hx HB HO. pose proof HO as [Hp Hf Hs].
  unfold main_step.
  destruct (main_pc s) eqn:Hpc; auto.
  - destruct (Z.ltb_spec (start_rc a) 0); ord_close.
  - assert (Hd : download_pc s = DNotStarted)
      by (apply (basic_early HB); auto).
    ord_close.
  - ord_close.
  - destruct (download_pc s) eqn:Hd; auto. ord_close.
Qed.

Lemma Ordered_download_step (s : System) :
  exited s = None -> Ordered a s -> Ordered a (download_step a s).
Proof.
  intros Hx HO. pose proof HO as [Hp Hf Hs].
  specialize (Hf Hx). specialize (Hs Hx).
  unfold download_step.
  destruct (download_pc s)
    as [|[|contents rest]|contents rest|contents rest|] eqn:Hd; auto.
  - destruct (negb (http_status_code a =? 200)); ord_close.
  - pose proof (DownloadHandler_check_shape contents (shared s)) as Hc.
    destruct (DownloadHandler_check contents (shared s)) as [[] m|code m|];
      [| |contradiction].
    + destruct Hc as (-> & _). ord_close.
    + unfold process_exit. ord_close.
  - assert (Hfit : Z.of_nat (List.length contents) < 2 ^ 64)
      by (apply (@next_chunk_fits s contents rest Hx HO);
          unfold remaining; now rewrite Hd).
    pose proof (DownloadHandler_push_shape contents (shared s)) as Hc.
    cbv zeta in Hc. rewrite firstn_downloaded_of in Hc by assumption.
    destruct (DownloadHandler_push contents (shared s)) as [[] m|code m|];
      auto.
    + destruct Hc as (_ & Hrd & _ & Hrd' & Hread' & Hbuf & _).
      unfold remaining, slot_in_step, slot in *. rewrite Hd, Hrd in *.
      constructor; unfold remaining, slot_in_step, slot; cbn; intros;
        rewrite ?Hrd', ?Hread', ?Hbuf; auto.
    + unfold process_exit. ord_close.
  - pose proof (DownloadHandler_wait_shape contents (shared s)) as Hc.
    destruct (DownloadHandler_wait contents (shared s)) as [n m|code m|];
      auto.
    + destruct Hc as (_ & -> & _ & Hread).
      unfold remaining, slot_in_step, slot in *. rewrite Hd in *.
      rewrite Hread in Hs. cbn in Hs. rewrite Hs in Hf.
      constructor; unfold remaining, slot_in_step, slot; cbn; intros;
        rewrite ?Hs; auto.
    + unfold process_exit. ord_close.
Qed.

Lemma Ordered_engine_read_step (s : System) :
  exited s = None -> Ordered a s -> Ordered a (engine_read_step s).
Proof.
  intros Hx HO. pose proof HO as [Hp Hf Hs].
  specialize (Hf Hx). specialize (Hs Hx).
  unfold engine_read_step.
  destruct (engine_active s); auto.
  pose proof (readimage_shape (shared s)) as Hc.
  destruct (readimage (shared s)) as [[r frame] m|code m|];
    [|contradiction|ord_close].
  destruct Hc as [(_ & _ & -> & ->)|(_ & Hrd & _ & -> & ->)];
    [ord_close|].
  unfold remaining, slot_in_step, slot in *. rewrite Hrd in *.
  constructor; unfold remaining, slot_in_step, slot; cbn; intros.
  - exists (remaining a s). unfold remaining.
    now rewrite <- app_assoc.
  - now rewrite <- app_assoc.
  - destruct (download_pc s); try discriminate; reflexivity.
Qed.

Lemma Ordered_step (ev : Event) (s : System) :
  Basic a s /\ Ordered a s ->
  Basic a (step a ev s) /\ Ordered a (step a ev s).
Proof.
  intros [HB HO]. split; [now apply Basic_step|].
  unfold step. destruct (exited s) eqn:Hx; auto.
  destruct ev.
  - now apply Ordered_main_step.
  - now apply Ordered_download_step.
  - now apply Ordered_engine_read_step.
  - pose proof HO as [Hp Hf Hs]. unfold engine_end_step.
    destruct (engine_active s && negb (engine_in_readimage s)); auto.
    ord_close.
  - pose proof HO as [Hp Hf Hs].
    destruct (main_pc s); auto; ord_close.
Qed.

Lemma Ordered_run (schedule : list Event) :
  Ordered a (run a schedule (enter a)).
Proof.
  refine (proj2 (@run_invariant a (fun s => Basic a s /\ Ordered a s)
                   _ schedule (enter a) _)).
  - intros ev s. apply Ordered_step.
  - split; [apply Basic_enter|apply Ordered_enter].
Qed.

End Ordering.

(** X5.  No frame is lost, repeated or reordered in the slot.  For a
    transfer that fits [uintmax_t], in every execution the frames taken
    out of the slot (the copies the calls of [readimage] made, one call
    after the other) are a beginning of the chunks the transport
    delivered, in order; while the process runs, they, the frame in the
    slot and the chunks still to push are exactly the chunks; and once
    the download thread has finished, every chunk has been taken out of
    the slot, once.  This is about the slot and the calls: what the
    engine is handed of a frame is its length and a dangling [*pbuf]. *)
Theorem frames_follow_chunks (a : Attempt) (schedule : list Event) :
  total_length (chunks a) < 2 ^ 64 ->
  let s := run a schedule (enter a) in
  (exists rest, pulled s ++ rest = chunks a)
  /\ (exited s = None ->
      pulled s ++ slot (shared s) ++ remaining a s = chunks a)
  /\ (exited s = None -> download_pc s = DFinished ->
      pulled s = chunks a).
Proof.
  intros Hfits s.
  pose proof (@Ordered_run a Hfits schedule) as HO. fold s in HO.
  split; [exact (ord_prefix HO)|]. split; [exact (ord_frames HO)|].
  intros Hx Hd.
  pose proof (ord_frames HO Hx) as Hf.
  pose proof (ord_slot HO Hx) as Hs.
  unfold remaining, slot_in_step, slot in *. rewrite Hd in *.
  rewrite Hs in Hf. cbn in Hf. now rewrite app_nil_r in Hf.
Qed.

Lemma within_length_step (a : Attempt) (ev : Event) (s : System) :
  total_length (chunks a) < 2 ^ 64 ->
  Basic a s -> Accounted a s ->
  (exited s = None ->
   downloaded_length (ds (shared s)) <= Uptane.length (attempt_target a)) ->
  exited (step a ev s) = None ->
  downloaded_length (ds (shared (step a ev s)))
  <= Uptane.length (attempt_target a).
Proof.
  intros Hfits HB HA Hle. unfold step.
  destruct (exited s) eqn:Hx; [intros H; congruence|].
  specialize (Hle eq_refl).
  destruct ev.
  - unfold main_step.
    destruct (main_pc s); cbn; auto.
    + now destruct (start_rc a <? 0).
    + now destruct (download_pc s).
  - unfold download_step.
    destruct (download_pc s)
      as [|[|contents rest]|contents rest|contents rest|] eqn:Hd; auto.
    + now destruct (negb (http_status_code a =? 200)).
    + pose proof (DownloadHandler_check_shape contents (shared s)) as Hc.
      destruct (DownloadHandler_check contents (shared s)) as [[] m|code m|];
        [|discriminate|auto].
      now destruct Hc as (-> & _).
    + assert (Hrem : remaining a s = contents :: rest)
        by (unfold remaining; now rewrite Hd).
      destruct (chunk_fits Hfits Hx HA Hrem) as (Hn & Hc & Hsum).
      pose proof (acct_push HA Hx Hd) as Hp.
      pose proof (DownloadHandler_push_shape contents (shared s)) as Hs.
      cbv zeta in Hs.
      destruct (DownloadHandler_push contents (shared s)) as [[] m|code m|];
        [|discriminate|auto].
      destruct Hs as (_ & _ & _ & _ & _ & _ & _ & _ & _ & Hdl & _).
      rewrite downloaded_of_fits, wrap64_small in Hdl by lia.
      cbn. intros _. lia.
    + pose proof (DownloadHandler_wait_shape contents (shared s)) as Hc.
      destruct (DownloadHandler_wait contents (shared s)) as [n m|code m|];
        [|discriminate|auto].
      now destruct Hc as (_ & -> & _).
  - unfold engine_read_step.
    destruct (engine_active s); auto.
    pose proof (readimage_shape (shared s)) as Hc.
    destruct (readimage (shared s)) as [[r frame] m|code m|];
      [|contradiction|auto].
    now destruct Hc as [(_ & _ & _ & ->)|(_ & _ & _ & _ & ->)].
  - unfold engine_end_step.
    now destruct (engine_active s && negb (engine_in_readimage s)).
  - now destruct (main_pc s).
Qed.

(** X6.  The progress of a transfer.  For a transfer that fits
    [uintmax_t], to a target whose length is not negative, in every
    execution and while the process runs: [downloaded_length] plus the
    bytes still to push is the total of the chunks, it never exceeds the
    target's length, and the selected hasher has been fed exactly the
    bytes pushed, in order; so once the download thread has finished,
    [downloaded_length] is the total and the hasher's digest is the digest
    of the concatenation of all chunks. *)
Theorem progress_follows_chunks (a : Attempt) (schedule : list Event) :
  0 <= Uptane.length (attempt_target a) ->
  total_length (chunks a) < 2 ^ 64 ->
  let s := run a schedule (enter a) in
  exited s = None ->
  downloaded_length (ds (shared s)) + total_length (remaining a s)
  = total_length (chunks a)
  /\ downloaded_length (ds (shared s)) <= Uptane.length (attempt_target a)
  /\ hasher_fed (ds (shared s)) ++ List.concat (remaining a s)
     = List.concat (chunks a)
  /\ (download_pc s = DFinished ->
      downloaded_length (ds (shared s)) = total_length (chunks a)
      /\ hasher_HashString (ds (shared s))
         = digest_of (Uptane.hashes_0_type (attempt_target a))
             (List.concat (chunks a))).
Proof.
  intros Hrange Hfits s Hx.
  pose proof (Basic_run a schedule) as HB. fold s in HB.
  pose proof (@Accounted_run a Hrange Hfits schedule) as HA. fold s in HA.
  pose proof (acct_length HA Hx) as Hl.
  pose proof (acct_fed HA Hx) as Hfed.
  split; [exact Hl|]. split; [|split; [exact Hfed|]].
  - assert (Hall : (Basic a s /\ Accounted a s)
                   /\ (exited s = None ->
                       downloaded_length (ds (shared s))
                       <= Uptane.length (attempt_target a))).
    { unfold s.
      apply (@run_invariant a
               (fun s0 => (Basic a s0 /\ Accounted a s0)
                          /\ (exited s0 = None ->
                              downloaded_length (ds (shared s0))
                              <= Uptane.length (attempt_target a)))).
      - intros ev s0 [[HB0 HA0] Hle0]. split.
        + apply Accounted_step; [assumption|now split].
        + now apply within_length_step.
      - split; [split; [apply Basic_enter|now apply Accounted_enter]|].
        cbn. intros _. exact Hrange. }
    exact (proj2 Hall Hx).
  - intros Hd. unfold remaining in Hl, Hfed. rewrite Hd in Hl, Hfed.
    cbn in Hl, Hfed. rewrite app_nil_r in Hfed.
    split; [lia|].
    now rewrite hasher_HashString_digest, (basic_hash_type HB), Hfed.
Qed.

Lemma same_but_status_step (a : Attempt) (status : RECOVERY_STATUS)
    (ev : Event) (s1 s2 : System) :
  same_but_status s1 s2 ->
  same_but_status (step a ev s1) (step a (report status ev) s2).
Proof.
  destruct s1 as [m1 mp1 dp1 es1 ei1 er1 p1 x1],
           s2 as [m2 mp2 dp2 es2 ei2 er2 p2 x2].
  unfold same_but_status. cbn.
  intros (<- & <- & <- & <- & <- & <- & <- & Hres).
  assert (Hactive : match er1 with Some _ => false | None => true end
                    = match er2 with Some _ => false | None => true end).
  { destruct er1, er2; try reflexivity.
    - discriminate (proj2 Hres eq_refl).
    - discriminate (proj1 Hres eq_refl). }
  unfold step. cbn.
  destruct x1; [cbn; auto 10|].
  destruct ev; cbn.
  - unfold main_step. cbn.
    destruct mp1; cbn; auto 10.
    + destruct (start_rc a <? 0); cbn; auto 10.
    + destruct dp1; cbn; auto 10.
  - unfold download_step. cbn.
    destruct dp1 as [|[|contents rest]|contents rest|contents rest|]; cbn;
      auto 10.
    + destruct (negb (http_status_code a =? 200)); cbn; auto 10.
    + destruct (DownloadHandler_check contents m1) as [[] m|code m|]; cbn;
        auto 10.
    + destruct (DownloadHandler_push contents m1) as [[] m|code m|]; cbn;
        auto 10.
    + destruct (DownloadHandler_wait contents m1) as [n m|code m|]; cbn;
        auto 10.
  - unfold engine_read_step, engine_active. cbn. rewrite <- Hactive.
    destruct (es1 && match er1 with Some _ => false | None => true end);
      cbn; auto 10.
    destruct (readimage m1) as [[r frame] m|code m|]; cbn; auto 10.
  - unfold engine_end_step, engine_active. cbn. rewrite <- Hactive.
    destruct (es1 && match er1 with Some _ => false | None => true end
              && negb ei1); cbn; auto 10.
    repeat split; auto; discriminate.
  - destruct mp1; cbn; auto 10.
Qed.

(** X8.  The status the engine reports is ignored.  Replace, in any
    execution, every status passed to [endupdate] by any other (a failure
    for a success, say): [install] returns the same, and the statics, the
    frames taken and the exit of the process are the same. *)
Theorem engine_status_ignored (a : Attempt) (status : RECOVERY_STATUS)
    (schedule : list Event) :
  let s1 := run a schedule (enter a) in
  let s2 := run a (map (report status) schedule) (enter a) in
  install s2 = install s1 /\ shared s2 = shared s1
  /\ pulled s2 = pulled s1 /\ exited s2 = exited s1.
Proof.
  assert (Hrun : forall s1 s2,
             same_but_status s1 s2 ->
             same_but_status (run a schedule s1)
               (run a (map (report status) schedule) s2)).
  { induction schedule as [|ev schedule IH]; intros s1 s2 Hs; [exact Hs|].
    change (run a (ev :: schedule) s1)
      with (run a schedule (step a ev s1)).
    change (run a (map (report status) (ev :: schedule)) s2)
      with (run a (map (report status) schedule)
              (step a (report status ev) s2)).
    apply IH. now apply same_but_status_step. }
  intros s1 s2.
  destruct (Hrun (enter a) (enter a)) as (Hm & Hpc & _ & _ & _ & Hp & Hx & _).
  { unfold same_but_status. repeat split; auto. }
  fold s1 s2 in Hm, Hpc, Hp, Hx.
  unfold install. rewrite Hpc. auto.
Qed.

(** X9.  A signal sent too early is lost.  When the engine has called
    [endupdate] before the caller's thread sleeps in [pthread_cond_wait]
    (the wait has no predicate), then, unless a spurious wake-up occurs,
    the caller never wakes: [swupdate_install] does not return, whatever
    runs and however long. *)
Theorem early_signal_is_lost (a : Attempt) (schedule : list Event)
    (s : System) :
  missed_signal s ->
  Forall (fun ev => is_spurious ev = false) schedule ->
  missed_signal (run a schedule s) /\ install (run a schedule s) = None.
Proof.
  intros Hs Hsched.
  assert (Hm : missed_signal (run a schedule s)).
  { revert s Hs.
    induction Hsched as [|ev schedule Hev Hsched IH]; intros s Hs;
      [exact Hs|].
    change (run a (ev :: schedule) s) with (run a schedule (step a ev s)).
    apply IH. now apply missed_signal_step. }
  split; [exact Hm|].
  destruct Hm as [_ Hpc]. unfold install.
  destruct Hpc as [Hpc|[Hpc|Hpc]]; now rewrite Hpc.
Qed.

Lemma drained_step (a : Attempt) (ev : Event) (s : System) :
  Basic a s ->
  download_pc s = DFinished /\ unrecoverable_error (shared s) = false
  /\ data_ready (shared s) = false ->
  (download_pc (step a ev s) = DFinished
   /\ unrecoverable_error (shared (step a ev s)) = false
   /\ data_ready (shared (step a ev s)) = false)
  /\ (engine_in_readimage s = true /\ engine_result s = None ->
      engine_in_readimage (step a ev s) = true
      /\ engine_result (step a ev s) = None).
Proof.
  intros HB (Hd & Hue & Hrd). unfold step.
  destruct (exited s); [auto|].
  destruct ev.
  - unfold main_step.
    destruct (main_pc s) eqn:Hpc; cbn; rewrite ?Hd; cbn; auto.
    + destruct (start_rc a <? 0); cbn; auto.
    + rewrite (basic_early HB) in Hd by auto. discriminate.
  - unfold download_step. rewrite Hd. auto.
  - unfold engine_read_step.
    destruct (engine_active s); [|auto].
    unfold readimage. rewrite Hue, Hrd. cbn. intuition auto.
  - unfold engine_end_step.
    destruct (engine_active s && negb (engine_in_readimage s)) eqn:Hact;
      [|auto].
    cbn. split; [auto|]. intros [Hin _].
    rewrite Hin, andb_false_r in Hact. discriminate.
  - destruct (main_pc s); cbn; auto.
Qed.

(** X10.  There is no end of stream.  Once, in an execution, the download
    thread has finished without a fault and the last frame was taken,
    [readimage] waits, then and after whatever runs next, for nothing is
    left to set [data_ready] or [unrecoverable_error]; an engine that has
    called [readimage] once more stays inside the call and never reports
    its completion. *)
Theorem no_end_of_stream (a : Attempt) (before after : list Event) :
  let s := run a before (enter a) in
  let s' := run a (before ++ after) (enter a) in
  download_pc s = DFinished ->
  unrecoverable_error (shared s) = false ->
  data_ready (shared s) = false ->
  readimage (shared s') = Waits
  /\ (engine_in_readimage s = true -> engine_result s = None ->
      engine_in_readimage s' = true /\ engine_result s' = None).
Proof.
  intros s s' Hd Hue Hrd. unfold s'. rewrite run_app. fold s.
  pose proof (Basic_run a before) as HB. fold s in HB.
  clearbody s. clear s'.
  assert (Hrun : forall s0,
             Basic a s0 ->
             download_pc s0 = DFinished
             /\ unrecoverable_error (shared s0) = false
             /\ data_ready (shared s0) = false ->
             (unrecoverable_error (shared (run a after s0)) = false
              /\ data_ready (shared (run a after s0)) = false)
             /\ (engine_in_readimage s0 = true /\ engine_result s0 = None ->
                 engine_in_readimage (run a after s0) = true
                 /\ engine_result (run a after s0) = None)).
  { induction after as [|ev after IH]; intros s0 HB0 H0;
      [split; [tauto|auto]|].
    change (run a (ev :: after) s0) with (run a after (step a ev s0)).
    destruct (drained_step ev HB0 H0) as [H1 Hin1].
    destruct (IH _ (Basic_step ev HB0) H1) as [H2 Hin2]. auto. }
  destruct (Hrun s HB (conj Hd (conj Hue Hrd))) as [(Hue' & Hrd') Hin].
  split; [|auto].
  unfold readimage. now rewrite Hue', Hrd'.
Qed.

End HandoffProofs.

(** ** The properties of the install state machine *)

(** What [finalizeInstall] does when the bootloader reports a reboot:
    the string of [getCurrentHash] is compared with the target's expected
    sha256; the result is [kOk] when they are equal and [kInstallFailed],
    "Wrong version booted", when they differ; in both cases the
    bootloader is left as [rebootFlagClear] leaves it, the reboot-pending
    marker cleared. *)
Lemma finalizeInstall_after_reboot {B : Type} `{Bootloader B}
    (target : Uptane.Target) (bootloader_ : B) :
  rebootDetected bootloader_ = true ->
  (getCurrentHash = Uptane.sha256Hash target ->
   fst (finalizeInstall target bootloader_)
   = {| data.result_code := data.kOk;
        data.description := "Successfully booted on new version" |})
  /\ (getCurrentHash <> Uptane.sha256Hash target ->
      fst (finalizeInstall target bootloader_)
      = {| data.result_code := data.kInstallFailed;
           data.description := "Wrong version booted" |})
  /\ snd (finalizeInstall target bootloader_) = rebootFlagClear bootloader_
  /\ reboot_pending (snd (finalizeInstall target bootloader_)) = false.
Proof.
  intros Hreboot. unfold finalizeInstall. rewrite Hreboot.
  cbn [negb fst snd].
  destruct (String.eqb_spec getCurrentHash (Uptane.sha256Hash target))
    as [Heq|Hne]; cbn [negb fst snd]; repeat split; auto;
    try contradiction; apply rebootFlagClear_pending.
Qed.

(** C2.  Where the code misses the claim: nothing in [finalizeInstall]
    measures the image that runs.  [getCurrentHash] is unimplemented
    (line 120) and returns a dummy string, and that string is what is
    compared.  Let [running_image_digest] be the sha256 of the image the
    device has booted, whatever it is.  After a detected reboot: when it
    is the very digest the target expects, the update applied and
    booted, and is not the dummy string, the result is still
    [kInstallFailed], "Wrong version booted"; and when the target
    expects the dummy string the result is [kOk] whatever image runs.
    The reboot-pending marker is cleared in both. *)
Theorem finalizeInstall_never_measures_running_image
    {B : Type} `{Bootloader B}
    (running_image_digest : string) (target : Uptane.Target)
    (bootloader_ : B) :
  rebootDetected bootloader_ = true ->
  (Uptane.sha256Hash target = running_image_digest ->
   running_image_digest <> getCurrentHash ->
   fst (finalizeInstall target bootloader_)
   = {| data.result_code := data.kInstallFailed;
        data.description := "Wrong version booted" |})
  /\ (Uptane.sha256Hash target = getCurrentHash ->
      fst (finalizeInstall target bootloader_)
      = {| data.result_code := data.kOk;
           data.description := "Successfully booted on new version" |})
  /\ reboot_pending (snd (finalizeInstall target bootloader_)) = false.
Proof.
  intros Hreboot.
  destruct (finalizeInstall_after_reboot target bootloader_ Hreboot)
    as (Heq & Hne & _ & Hclear).
  split; [|split; [|exact Hclear]].
  - intros Hsame Hdiff. apply Hne. rewrite Hsame. congruence.
  - intros Hsame. apply Heq. now rewrite Hsame.
Qed.

(** C6.  For every target, when [finalizeInstall] is called while the
    bootloader reports no reboot, it returns [kNeedCompletion] and leaves
    the bootloader exactly as it was, the reboot-pending marker with it;
    calling it again gives the same. *)
Theorem finalizeInstall_before_reboot {B : Type} `{Bootloader B}
    (target : Uptane.Target) (bootloader_ : B) :
  rebootDetected bootloader_ = false ->
  finalizeInstall target bootloader_
  = ({| data.result_code := data.kNeedCompletion;
        data.description :=
          "Reboot is required for the pending update application" |},
     bootloader_)
  /\ reboot_pending (snd (finalizeInstall target bootloader_))
     = reboot_pending bootloader_
  /\ finalizeInstall target (snd (finalizeInstall target bootloader_))
     = finalizeInstall target bootloader_.
Proof.
  intros Hreboot.
  assert (Hf : finalizeInstall target bootloader_
               = ({| data.result_code := data.kNeedCompletion;
                     data.description :=
                       "Reboot is required for the pending update application"
                  |}, bootloader_))
    by (unfold finalizeInstall; now rewrite Hreboot).
  rewrite Hf. cbn. rewrite Hf. auto.
Qed.

(** C10.  [getCurrentHash] is one fixed string, whatever the storage, the
    bootloader or the installed version: for every target and every
    bootloader that reports a reboot, [finalizeInstall] returns [kOk] if
    and only if the target's sha256 is that string. *)
Theorem getCurrentHash_constant_decides_finalize :
  getCurrentHash
  = "c8cfb0988662ce4fb60beff47b741705146548a8e62801fbb0cbdeaf198fa47e"
  /\ forall (B : Type) (ops : Bootloader B) (target : Uptane.Target)
            (bootloader_ : B),
       rebootDetected bootloader_ = true ->
       (data.result_code (fst (finalizeInstall target bootloader_)) = data.kOk
        <-> Uptane.sha256Hash target
            = "c8cfb0988662ce4fb60beff47b741705146548a8e62801fbb0cbdeaf198fa47e").
Proof.
  split; [reflexivity|].
  intros B ops target bootloader_ Hreboot.
  unfold finalizeInstall. rewrite Hreboot. cbn [negb fst snd].
  destruct (String.eqb_spec getCurrentHash (Uptane.sha256Hash target))
    as [Heq|Hne]; cbn [negb fst snd data.result_code].
  - split; [intros _; now rewrite <- Heq|reflexivity].
  - split; [discriminate|].
    intros Heq. exfalso. apply Hne. now rewrite Heq.
Qed.

(** ** The model run on examples *)

(** C1, the claim as stated fails: the over-length chunk of
    [one_byte_too_many] ends the process with [exit(-1)] inside the
    callback, and [install] returns nothing to its caller. *)
Lemma over_length_chunk_terminates_process :
  let s := example_run one_byte_too_many until_second_check
             (enter one_byte_too_many) in
  exited s = Some (-1) /\ install s = None
  /\ download_pc s = DFetch [[x63; x64; x65]].
Proof. vm_compute. repeat split. Qed.

Lemma callback_faults_exit_witness :
  let s := example_run one_byte_too_many until_second_check
             (enter one_byte_too_many) in
  exited s = Some (-1) /\ unrecoverable_error (shared s) = true
  /\ install s = None.
Proof.
  cbv zeta.
  destruct (@callback_faults_exit_transport_fault_returns example_hashers
              one_byte_too_many until_second_check) as [Hexit _].
  destruct (Hexit (-1) eq_refl) as (_ & Hue & _ & Hinst).
  split; [reflexivity|]. split; [exact Hue|exact Hinst].
Defined.

Lemma finalizeInstall_never_measures_running_image_witness :
  let running_image_digest := Uptane.sha256Hash example_target in
  rebootDetected {| need_reboot := true; rebooted := true |} = true
  /\ running_image_digest <> getCurrentHash
  /\ fst (finalizeInstall example_target
            {| need_reboot := true; rebooted := true |})
     = {| data.result_code := data.kInstallFailed;
          data.description := "Wrong version booted" |}
  /\ reboot_pending
       (snd (finalizeInstall example_target
               {| need_reboot := true; rebooted := true |})) = false.
Proof.
  cbv zeta.
  assert (Hdiff : Uptane.sha256Hash example_target <> getCurrentHash)
    by discriminate.
  destruct (@finalizeInstall_never_measures_running_image
              FlagBootloader FlagBootloader_ops
              (Uptane.sha256Hash example_target) example_target
              {| need_reboot := true; rebooted := true |} (eq_refl true))
    as (Hfails & _ & Hclear).
  split; [reflexivity|]. split; [exact Hdiff|].
  split; [exact (Hfails eq_refl Hdiff)|exact Hclear].
Defined.



Lemma no_chunk_no_integrity_check_witness :
  @digest_of example_hashers
    (Uptane.hashes_0_type empty_target) (List.concat (chunks nothing_delivered))
  <> Some (Uptane.sha256Hash empty_target)
  /\ total_length (chunks nothing_delivered) = Uptane.length empty_target
  /\ install (example_run nothing_delivered
                (natural_schedule nothing_delivered SUCCESS)
                (enter nothing_delivered))
     = Some {| data.result_code := data.kNeedCompletion;
               data.description := "Application successful, need reboot" |}.
Proof.
  split; [discriminate|]. split; [reflexivity|].
  apply (@no_chunk_no_integrity_check example_hashers
           nothing_delivered SUCCESS); [reflexivity|reflexivity|discriminate].
Defined.

Lemma consumer_never_sees_excess_witness :
  let s := example_run one_byte_too_many
             ([EvMain; EvMain; EvMain] ++ chunk_round)
             (enter one_byte_too_many) in
  total_length (pulled s) + pending (shared s) <= 4
  /\ exited (@step example_hashers one_byte_too_many
               EvDownload s) = Some (-1)
  /\ pulled (@step example_hashers one_byte_too_many
               EvDownload s) = [[x61; x62]].
Proof.
  cbv zeta.
  destruct (@consumer_never_sees_excess example_hashers one_byte_too_many
              ([EvMain; EvMain; EvMain] ++ chunk_round))
    as [Hbound Hover]; [discriminate|reflexivity|].
  split; [exact Hbound|].
  destruct (Hover [x63; x64; x65] [] eq_refl eq_refl eq_refl)
    as (Hx & _ & _ & _ & Hp).
  split; [exact Hx|exact Hp].
Defined.

Lemma finalizeInstall_before_reboot_witness :
  rebootDetected {| need_reboot := true; rebooted := false |} = false
  /\ finalizeInstall example_target {| need_reboot := true; rebooted := false |}
     = ({| data.result_code := data.kNeedCompletion;
           data.description :=
             "Reboot is required for the pending update application" |},
        {| need_reboot := true; rebooted := false |}).
Proof.
  split; [reflexivity|].
  exact (proj1 (@finalizeInstall_before_reboot FlagBootloader
                  FlagBootloader_ops example_target
                  {| need_reboot := true; rebooted := false |}
                  (eq_refl false))).
Defined.

(** C7, the claim as stated fails: with an aborted token in the download
    context, the check lets "ab" through and the push puts it in the slot
    and marks it full; no fault is recorded. *)
Lemma aborted_token_does_not_stop_push :
  token (ds aborted_token_statics) = Some TokenAborted
  /\ DownloadHandler_check [x61; x62] aborted_token_statics
     = Returns tt aborted_token_statics
  /\ exists m',
       @DownloadHandler_push example_hashers
         [x61; x62] aborted_token_statics = Returns tt m'
       /\ data_buffer m' = [x61; x62] /\ data_ready m' = true
       /\ unrecoverable_error m' = false.
Proof.
  split; [reflexivity|]. split; [reflexivity|].
  eexists. split; [vm_compute; reflexivity|]. repeat split.
Qed.

Lemma transport_fault_fails_install_witness :
  let a := two_halves 404 in
  http_status_code a <> 200
  /\ exists schedule,
       download_pc (example_run a schedule (enter a)) = DFinished
       /\ install (example_run a schedule (enter a))
          = Some {| data.result_code := data.kInstallFailed;
                    data.description := "swupdate_install failed" |}.
Proof.
  cbv zeta.
  assert (Hst : http_status_code (two_halves 404) <> 200) by discriminate.
  split; [exact Hst|].
  destruct (@transport_fault_fails_install example_hashers (two_halves 404) Hst)
    as [_ Hex].
  apply Hex; first [reflexivity|discriminate].
Defined.

Lemma readimage_abort_or_take_witness :
  readimage (store_unrecoverable_error aborted_token_statics)
  = Returns (-1, None) (store_unrecoverable_error aborted_token_statics)
  /\ readimage (store_flags true false
                  (set_data_buffer [x61; x62] aborted_token_statics))
     = Returns (2, Some {| data_buffer_copy := [x61; x62];
                           pbuf := Dangling;
                           size := 2 |})
         (store_flags false true
            (set_data_buffer [x61; x62] aborted_token_statics)).
Proof.
  split.
  - refine (proj1 (proj1 (proj2 (readimage_abort_or_take _)) _)).
    reflexivity.
  - refine (proj1 (proj1 (proj2 (proj2 (readimage_abort_or_take _))) _ _));
      reflexivity.
Defined.

Lemma getCurrentHash_constant_decides_finalize_witness :
  data.result_code
    (fst (finalizeInstall example_target
            {| need_reboot := true; rebooted := true |}))
  <> data.kOk.
Proof.
  intros Hok.
  pose proof (proj1 (proj2 getCurrentHash_constant_decides_finalize
                       FlagBootloader FlagBootloader_ops example_target
                       {| need_reboot := true; rebooted := true |}
                       (eq_refl true))
                Hok) as Heq.
  discriminate Heq.
Defined.

(** ** The properties of the installed packages file *)

Lemma boost_split_nonempty (sep : ascii) (input : string) :
  boost_split sep input <> [].
Proof.
  destruct input as [|c rest]; cbn; [discriminate|].
  destruct (Ascii.eqb c sep); [discriminate|].
  destruct (boost_split sep rest); discriminate.
Qed.

Lemma boost_split_app (sep : ascii) (s1 s2 : string) :
  boost_split sep (s1 ++ String sep s2)
  = boost_split sep s1 ++ boost_split sep s2.
Proof.
  induction s1 as [|c s1 IH]; cbn.
  - now rewrite Ascii.eqb_refl.
  - destruct (Ascii.eqb c sep); [now rewrite IH|].
    rewrite IH.
    pose proof (boost_split_nonempty sep s1) as Hne.
    destruct (boost_split sep s1); [contradiction|reflexivity].
Qed.

Lemma boost_split_no_separator (sep : ascii) (s : string) :
  find sep s = None -> boost_split sep s = [s].
Proof.
  induction s as [|c s IH]; cbn; [reflexivity|].
  destruct (Ascii.eqb c sep); [discriminate|].
  destruct (find sep s); [discriminate|].
  intros _. now rewrite IH.
Qed.

Lemma find_app_none (c : ascii) (s1 s2 : string) :
  find c s1 = None -> find c s2 = None -> find c (s1 ++ s2) = None.
Proof.
  induction s1 as [|x s1 IH]; cbn; [auto|].
  destruct (Ascii.eqb x c); [discriminate|].
  destruct (find c s1); [discriminate|].
  intros _ H2. now rewrite IH.
Qed.

Lemma find_first (c : ascii) (s1 s2 : string) :
  find c s1 = None -> find c (s1 ++ String c s2) = Some (String.length s1).
Proof.
  induction s1 as [|x s1 IH]; cbn.
  - now rewrite Ascii.eqb_refl.
  - destruct (Ascii.eqb x c); [discriminate|].
    destruct (find c s1); [discriminate|].
    intros _. now rewrite IH.
Qed.

Lemma substring_whole (s : string) : substring 0 (String.length s) s = s.
Proof. induction s as [|c s IH]; cbn; [reflexivity|now rewrite IH]. Qed.

Lemma substring_prefix (s1 s2 : string) :
  substring 0 (String.length s1) (s1 ++ s2) = s1.
Proof.
  induction s1 as [|c s1 IH]; cbn; [now destruct s2|now rewrite IH].
Qed.

Lemma substr_from_suffix (c : ascii) (s1 s2 : string) :
  substr_from (String.length s1 + 1) (s1 ++ String c s2) = s2.
Proof.
  unfold substr_from. induction s1 as [|x s1 IH]; cbn.
  - rewrite Nat.sub_0_r. apply substring_whole.
  - exact IH.
Qed.

Lemma getInstalledPackages_loop_packages (package_lines : list string) :
  forall packages,
    getInstalledPackages_loop package_lines packages
    = match getInstalledPackages_loop package_lines [] with
      | Value more => Value (packages ++ more)
      | Throw what => Throw what
      end.
Proof.
  induction package_lines as [|it rest IH]; intros packages; cbn.
  - now rewrite app_nil_r.
  - destruct it as [|c it]; [apply IH|].
    destruct (package_of_line (String c it)) as [package|what];
      [|reflexivity].
    rewrite (IH (packages ++ [package])), (IH [package]).
    destruct (getInstalledPackages_loop rest []); [|reflexivity].
    now rewrite <- app_assoc.
Qed.

Lemma getInstalledPackages_loop_app (lines1 lines2 : list string) :
  getInstalledPackages_loop (lines1 ++ lines2) []
  = match getInstalledPackages_loop lines1 [] with
    | Value packages1 =>
        match getInstalledPackages_loop lines2 [] with
        | Value packages2 => Value (packages1 ++ packages2)
        | Throw what => Throw what
        end
    | Throw what => Throw what
    end.
Proof.
  induction lines1 as [|it rest IH]; cbn.
  - now destruct (getInstalledPackages_loop lines2 []).
  - destruct it as [|c it]; [exact IH|].
    destruct (package_of_line (String c it)) as [package|what];
      [|reflexivity].
    rewrite (getInstalledPackages_loop_packages (rest ++ lines2) [package]),
      (getInstalledPackages_loop_packages rest [package]), IH.
    destruct (getInstalledPackages_loop rest []); [|reflexivity].
    destruct (getInstalledPackages_loop lines2 []); [|reflexivity].
    now rewrite app_assoc.
Qed.

Lemma package_of_line_written (p : string * string) :
  find space (fst p) = None ->
  package_of_line (package_line p) = Value (package_json p).
Proof.
  intros Hname. unfold package_of_line, package_line.
  rewrite (@find_first space (fst p) (snd p) Hname), substring_prefix,
    substr_from_suffix.
  reflexivity.
Qed.

Lemma package_entries_line (p : string * string) :
  find space (fst p) = None -> find newline (fst p) = None ->
  find newline (snd p) = None ->
  package_entries (package_line p) = Value [package_json p].
Proof.
  intros Hsp Hnl Hv. unfold package_entries.
  rewrite boost_split_no_separator.
  - cbn. pose proof (package_of_line_written p Hsp) as Hp.
    destruct (package_line p) eqn:Hline.
    + unfold package_line in Hline. destruct (fst p); discriminate.
    + now rewrite Hp.
  - unfold package_line. apply find_app_none; [assumption|].
    cbn. now rewrite Hv.
Qed.

Lemma package_entries_app (s1 s2 : string) :
  package_entries (s1 ++ String newline s2)
  = match package_entries s1 with
    | Value packages1 =>
        match package_entries s2 with
        | Value packages2 => Value (packages1 ++ packages2)
        | Throw what => Throw what
        end
    | Throw what => Throw what
    end.
Proof.
  unfold package_entries.
  now rewrite boost_split_app, getInstalledPackages_loop_app.
Qed.

(** X3.  The entries of a packages file are those of its parts at any
    newline, in order, and the file throws when one of its parts does; the
    empty file has no entries (so empty lines, and a newline at the end,
    add nothing). *)
Theorem package_entries_at_newline (s1 s2 : string) :
  package_entries (s1 ++ String newline s2)
  = match package_entries s1 with
    | Value packages1 =>
        match package_entries s2 with
        | Value packages2 => Value (packages1 ++ packages2)
        | Throw what => Throw what
        end
    | Throw what => Throw what
    end
  /\ package_entries EmptyString = Value [].
Proof.
  split; [apply package_entries_app|reflexivity].
Qed.

(** X1.  Reading back a packages file written one package per line, name,
    space, version: when no name holds a space or a newline and no version
    holds a newline (a version may hold spaces, the line is cut at the
    first one), [getInstalledPackages] returns the array of the packages'
    name and version objects, in order; and the same with a newline at the
    end of the file. *)
Theorem getInstalledPackages_reads_back (ps : list (string * string)) :
  Forall (fun p => find space (fst p) = None
                   /\ find newline (fst p) = None
                   /\ find newline (snd p) = None) ps ->
  getInstalledPackages (packages_file ps)
  = Value (JsonArray (map package_json ps))
  /\ getInstalledPackages (packages_file ps ++ String newline EmptyString)
     = Value (JsonArray (map package_json ps)).
Proof.
  intros Hps.
  assert (Hentries : package_entries (packages_file ps)
                     = Value (map package_json ps)).
  { unfold packages_file.
    induction Hps as [|p ps (Hsp & Hnl & Hv) Hps IH]; [reflexivity|].
    destruct ps as [|q ps].
    - cbn. now apply package_entries_line.
    - change (String.concat (String newline EmptyString)
                (map package_line (p :: q :: ps)))
        with (String.append (package_line p)
                (String newline
                   (String.concat (String newline EmptyString)
                      (map package_line (q :: ps))))).
      rewrite package_entries_app, IH.
      now rewrite package_entries_line. }
  split.
  - unfold getInstalledPackages. now rewrite Hentries.
  - unfold getInstalledPackages.
    rewrite package_entries_app, Hentries. cbn.
    now rewrite app_nil_r.
Qed.

Lemma getInstalledPackages_loop_throws (package_lines : list string)
    (what : string) :
  forall packages,
    getInstalledPackages_loop package_lines packages = Throw what
    <-> what = "Wrong packages file format"
        /\ exists it, In it package_lines /\ it <> EmptyString
                      /\ find space it = None.
Proof.
  induction package_lines as [|it rest IH]; intros packages; cbn.
  - split; [discriminate|]. intros (_ & it & [] & _).
  - destruct it as [|c it].
    + rewrite IH. split.
      * intros (Hw & it' & Hin & Hne & Hf). eauto 6.
      * intros (Hw & it' & [Heq|Hin] & Hne & Hf); [now subst|eauto 6].
    + unfold package_of_line.
      destruct (find space (String c it)) eqn:Hfind.
      * rewrite IH. split.
        -- intros (Hw & it' & Hin & Hne & Hf). eauto 6.
        -- intros (Hw & it' & [Heq|Hin] & Hne & Hf); [|eauto 6].
           subst it'. congruence.
      * split.
        -- intros [= <-]. split; [reflexivity|].
           exists (String c it). repeat split; auto. discriminate.
        -- intros (-> & _). reflexivity.
Qed.

(** X2.  [getInstalledPackages] throws exactly when some line of the file
    is not empty and holds no space, wherever the line stands, and then
    with "Wrong packages file format". *)
Theorem getInstalledPackages_throws (packages_str what : string) :
  getInstalledPackages packages_str = Throw what
  <-> what = "Wrong packages file format"
      /\ exists it, In it (boost_split newline packages_str)
                    /\ it <> EmptyString /\ find space it = None.
Proof.
  rewrite <- (getInstalledPackages_loop_throws
                (boost_split newline packages_str) what []).
  unfold getInstalledPackages, package_entries.
  destruct (getInstalledPackages_loop (boost_split newline packages_str) []);
    split; congruence.
Qed.

(** ** The messages and the result of [endupdate] *)

(** X13.  [endupdate] returns [EXIT_SUCCESS] exactly for [SUCCESS], and
    its first line says "*failed* !" exactly for [FAILURE]: for any other
    status it returns [EXIT_FAILURE] and prints that the update "was
    successful !", followed by "Update failed. Performing cleanup.". *)
Theorem endupdate_reports (status : RECOVERY_STATUS) :
  (endupdate status = EXIT_SUCCESS <-> status = SUCCESS)
  /\ (hd EmptyString (endupdate_output status)
      = String.append "SWUpdate *failed* !" (String newline EmptyString)
      <-> status = FAILURE)
  /\ (status <> SUCCESS -> status <> FAILURE ->
      endupdate status = EXIT_FAILURE
      /\ endupdate_output status
         = [String.append "SWUpdate was successful !"
              (String newline EmptyString);
            String.append "Update failed. Performing cleanup."
              (String newline EmptyString)]).
Proof.
  destruct status; cbn; repeat split; intros; try discriminate;
    try reflexivity; try contradiction.
Qed.

(** ** The further properties on examples *)

Lemma getInstalledPackages_reads_back_witness :
  getInstalledPackages (packages_file example_packages)
  = Value (JsonArray
             [JsonObject [("name", JsonString "aktualizr");
                          ("version", JsonString "1.0 beta")];
              JsonObject [("name", JsonString "swupdate");
                          ("version", JsonString "2023.12")]]).
Proof.
  refine (proj1 (@getInstalledPackages_reads_back example_packages _)).
  repeat constructor.
Defined.

Lemma getInstalledPackages_throws_witness :
  getInstalledPackages broken_packages_file
  = Throw "Wrong packages file format".
Proof.
  apply (proj2 (getInstalledPackages_throws broken_packages_file
                  "Wrong packages file format")).
  split; [reflexivity|].
  exists "swupdate". split; [right; left; reflexivity|].
  split; [discriminate|reflexivity].
Defined.

Lemma push_then_pull_witness :
  match @DownloadHandler_push example_hashers [x61; x62]
          (shared (enter (two_halves 200))) with
  | Returns _ m' =>
      data_buffer m' = [x61; x62]
      /\ readimage m'
         = Returns (2, Some {| data_buffer_copy := [x61; x62];
                               pbuf := Dangling;
                               size := 2 |})
             (store_flags false true m')
      /\ readimage (store_flags false true m') = Waits
  | _ => False
  end.
Proof.
  destruct (@DownloadHandler_push example_hashers [x61; x62]
              (shared (enter (two_halves 200))))
    as [[] m'|code m'|] eqn:Hpush;
    [|vm_compute in Hpush; discriminate Hpush
     |vm_compute in Hpush; discriminate Hpush].
  assert (Hfit : Z.of_nat (List.length [x61; x62]) < 2 ^ 64)
    by reflexivity.
  destruct (@push_then_pull example_hashers [x61; x62] _ m' Hfit Hpush)
    as (_ & _ & Hbuf & Hread & Hagain & _).
  split; [exact Hbuf|]. split; [exact Hread|exact Hagain].
Defined.

Lemma frames_follow_chunks_witness :
  let a := two_halves 200 in
  total_length (chunks a) < 2 ^ 64
  /\ pulled (example_run a (natural_schedule a SUCCESS) (enter a))
     = chunks a.
Proof.
  cbv zeta. split; [reflexivity|].
  refine (proj2 (proj2 (@frames_follow_chunks example_hashers
                          (two_halves 200)
                          (natural_schedule (two_halves 200) SUCCESS)
                          eq_refl)) eq_refl eq_refl).
Defined.

Lemma progress_follows_chunks_witness :
  let a := two_halves 200 in
  let s := example_run a (natural_schedule a SUCCESS) (enter a) in
  downloaded_length (ds (shared s)) = 4
  /\ @hasher_HashString example_hashers (ds (shared s)) = Some "abcd".
Proof.
  cbv zeta.
  assert (Hrange : 0 <= Uptane.length (attempt_target (two_halves 200)))
    by discriminate.
  destruct (@progress_follows_chunks example_hashers (two_halves 200)
              (natural_schedule (two_halves 200) SUCCESS)
              Hrange eq_refl eq_refl) as (_ & _ & _ & Hdone).
  exact (Hdone eq_refl).
Defined.

Lemma install_outcomes_witness :
  let a := two_halves 404 in
  let s := example_run a (natural_schedule a SUCCESS) (enter a) in
  install s = Some {| data.result_code := data.kInstallFailed;
                      data.description := "swupdate_install failed" |}
  /\ unrecoverable_error (shared s) = true.
Proof.
  cbv zeta. split; [reflexivity|].
  destruct (@install_outcomes example_hashers (two_halves 404)
              (natural_schedule (two_halves 404) SUCCESS)
              {| data.result_code := data.kInstallFailed;
                 data.description := "swupdate_install failed" |} eq_refl)
    as [(_ & [Hneg|Hue])|(Hr & _)].
  - discriminate Hneg.
  - exact Hue.
  - discriminate Hr.
Defined.

Lemma early_signal_is_lost_witness :
  let a := two_halves 200 in
  install (example_run a
             ([EvMain; EvEngineEnd SUCCESS]
                ++ [EvMain; EvMain] ++ chunk_round ++ chunk_round
                ++ [EvDownload; EvMain; EvMain])
             (enter a))
  = None.
Proof.
  cbv zeta. unfold example_run. rewrite run_app.
  refine (proj2 (@early_signal_is_lost example_hashers (two_halves 200) _ _
                   _ _)).
  - split; [discriminate|left; reflexivity].
  - repeat constructor.
Defined.

Lemma no_end_of_stream_witness :
  let a := two_halves 200 in
  let s := example_run a
             (until_drained ++ [EvMain; EvEngineEnd SUCCESS; EvEngineRead])
             (enter a) in
  readimage (shared s) = Waits /\ engine_result s = None
  /\ install s = None.
Proof.
  cbv zeta.
  destruct (@no_end_of_stream example_hashers (two_halves 200) until_drained
              [EvMain; EvEngineEnd SUCCESS; EvEngineRead]
              eq_refl eq_refl eq_refl) as (Hwait & Hstuck).
  split; [exact Hwait|].
  split; [exact (proj2 (Hstuck eq_refl eq_refl))|reflexivity].
Defined.

Lemma fault_is_terminal_witness :
  let a := two_halves 404 in
  let s := example_run a (natural_schedule a SUCCESS) (enter a) in
  unrecoverable_error (shared s) = true
  /\ readimage (shared (example_run a [EvEngineRead; EvDownload] s))
     = Returns (-1, None)
         (shared (example_run a [EvEngineRead; EvDownload] s)).
Proof.
  cbv zeta. split; [reflexivity|].
  exact (proj1 (proj2 (@fault_is_terminal example_hashers (two_halves 404)
                         [EvEngineRead; EvDownload]
                         (example_run (two_halves 404)
                            (natural_schedule (two_halves 404) SUCCESS)
                            (enter (two_halves 404)))
                         eq_refl))).
Defined.

